(** * DNS endpoint synthesis of the dns-operator (api/v1alpha1/dnsrecord_endpoints.go)

    A shallow embedding of [GenerateEndpoints] and of the functions it calls,
    followed by the properties of the record set it computes.

    Modelling conventions.
    - Go strings are [string]s (sequences of bytes); [int] and the TTL are [Z]
      (no arithmetic is performed on them, so no wrap-around can occur).
    - [*externaldns.Endpoint] is a location in a heap of endpoints.  The heap is
      a list, a location is an index, and allocation appends.  All the code that
      writes through an endpoint pointer lives in the state monad [M].
    - [map[string]*Endpoint] and [map[string]string] are [gmap]s.
    - The two pointers the code compares with nil (the listener hostname and the
      DNS record) are [option]s.  The pointers it dereferences without a test
      (the gateway, the routing, an address type, the elements of
      [Spec.Endpoints]) are taken to be non-nil.
    - Label-selector compilation and matching (k8s apimachinery) and the short
      hash (internal/common/hash) are not part of the file; they are the
      operations of the class [Collaborators]. *)

From Stdlib Require Import ZArith String Ascii DecimalString Sorted Permutation.
From stdpp Require Import base option list sorting gmap strings.

Local Open Scope string_scope.
Local Open Scope Z_scope.
Local Open Scope list_scope.
Local Open Scope stdpp_scope.

(** ** The heap and its monad *)

Module externaldns.

Record ProviderSpecificProperty := mkProperty {
  Name : string;
  Value : string
}.

(** sigs.k8s.io/external-dns/endpoint.Endpoint *)
Record Endpoint := mkEndpoint {
  DNSName : string;
  Targets : list string;
  RecordType : string;
  SetIdentifier : string;
  RecordTTL : Z;
  Labels : gmap string string;
  ProviderSpecific : list ProviderSpecificProperty
}.

(** The zero value [Endpoint{}]. *)
Definition zero : Endpoint := mkEndpoint "" [] "" "" 0 ∅ [].

Definition set_DNSName (v : string) (e : Endpoint) : Endpoint :=
  mkEndpoint v (Targets e) (RecordType e) (SetIdentifier e) (RecordTTL e) (Labels e) (ProviderSpecific e).
Definition set_Targets (v : list string) (e : Endpoint) : Endpoint :=
  mkEndpoint (DNSName e) v (RecordType e) (SetIdentifier e) (RecordTTL e) (Labels e) (ProviderSpecific e).
Definition set_RecordType (v : string) (e : Endpoint) : Endpoint :=
  mkEndpoint (DNSName e) (Targets e) v (SetIdentifier e) (RecordTTL e) (Labels e) (ProviderSpecific e).
Definition set_SetIdentifier (v : string) (e : Endpoint) : Endpoint :=
  mkEndpoint (DNSName e) (Targets e) (RecordType e) v (RecordTTL e) (Labels e) (ProviderSpecific e).
Definition set_RecordTTL (v : Z) (e : Endpoint) : Endpoint :=
  mkEndpoint (DNSName e) (Targets e) (RecordType e) (SetIdentifier e) v (Labels e) (ProviderSpecific e).
Definition set_ProviderSpecific (v : list ProviderSpecificProperty) (e : Endpoint) : Endpoint :=
  mkEndpoint (DNSName e) (Targets e) (RecordType e) (SetIdentifier e) (RecordTTL e) (Labels e) v.

(** The loop of [Endpoint.SetProviderSpecificProperty]: the first property
    named [key] gets the new value; without one the property is appended. *)
Fixpoint setProperty (key value : string) (ps : list ProviderSpecificProperty)
  : list ProviderSpecificProperty :=
  match ps with
  | [] => [mkProperty key value]
  | p :: ps' =>
      if decide (Name p = key) then mkProperty key value :: ps'
      else p :: setProperty key value ps'
  end.

(** [Endpoint.GetProviderSpecificProperty]: the value of the first property
    with that name. *)
Fixpoint getProperty (key : string) (ps : list ProviderSpecificProperty) : option string :=
  match ps with
  | [] => None
  | p :: ps' => if decide (Name p = key) then Some (Value p) else getProperty key ps'
  end.

End externaldns.

Global Instance Endpoint_inhabited : Inhabited externaldns.Endpoint :=
  populate externaldns.zero.

(** A pointer to an endpoint. *)
Abbreviation loc := nat.
Abbreviation Heap := (list externaldns.Endpoint).

Definition M (A : Type) : Type := Heap → A * Heap.

Definition ret {A} (a : A) : M A := λ h, (a, h).
Definition bind {A B} (m : M A) (f : A → M B) : M B :=
  λ h, let (a, h') := m h in f a h'.

Declare Scope heap_scope.
Delimit Scope heap_scope with M.
Notation "x <- m ; f" := (bind m (λ x, f))
  (at level 20, m at level 100, f at level 200, only parsing) : heap_scope.
Notation "' x <- m ; f" := (bind m (λ x, f))
  (at level 20, x pattern, m at level 100, f at level 200, only parsing) : heap_scope.
Local Open Scope heap_scope.

(** [&Endpoint{...}] *)
Definition alloc (e : externaldns.Endpoint) : M loc := λ h, (length h, h ++ [e]).
(** [*p] *)
Definition load (p : loc) : M externaldns.Endpoint := λ h, (h !!! p, h).
(** [p.field = v] *)
Definition modify (p : loc) (f : externaldns.Endpoint → externaldns.Endpoint) : M unit :=
  λ h, (tt, <[p := f (h !!! p)]> h).

(** [for _, x := range l { s = body(x, s) }] *)
Fixpoint for_range {A S} (l : list A) (body : A → S → M S) (s : S) : M S :=
  match l with
  | [] => ret s
  | x :: l' => s' <- body x s; for_range l' body s'
  end.

(** [e.SetProviderSpecificProperty(key, value)] of external-dns. *)
Definition SetProviderSpecificProperty (endpoint : loc) (key value : string) : M unit :=
  modify endpoint (λ e,
    externaldns.set_ProviderSpecific
      (externaldns.setProperty key value (externaldns.ProviderSpecific e)) e).

(** ** Go library functions on strings *)

(** [strings.ToLower] on ASCII: the letters A-Z are mapped to a-z and every
    other byte is kept. *)
Definition lower_ascii (c : ascii) : ascii :=
  let n := N_of_ascii c in
  if ((65 <=? n) && (n <=? 90))%N then ascii_of_N (n + 32) else c.

Fixpoint strings_ToLower (s : string) : string :=
  match s with
  | EmptyString => EmptyString
  | String c s' => String (lower_ascii c) (strings_ToLower s')
  end.

(** [strings.HasPrefix(s, prefix)] *)
Definition strings_HasPrefix (s pre : string) : bool := String.prefix pre s.

(** [strings.Replace(s, old, new, -1)] for a non-empty [old]: every occurrence
    of [old], found from left to right without overlap, is replaced.  [skip]
    counts the bytes of a matched occurrence that are still to be dropped. *)
Fixpoint Replace_from (old new : string) (skip : nat) (s : string) : string :=
  match s with
  | EmptyString => EmptyString
  | String c s' =>
      match skip with
      | S k => Replace_from old new k s'
      | O =>
          if String.prefix old s
          then new +:+ Replace_from old new (Nat.pred (String.length old)) s'
          else String c (Replace_from old new 0 s')
      end
  end.

Definition strings_Replace_all (s old new : string) : string :=
  Replace_from old new 0 s.

(** [strings.Contains(s, substr)] *)
Fixpoint strings_Contains (s substr : string) : bool :=
  String.prefix substr s
  || match s with
     | EmptyString => false
     | String _ s' => strings_Contains s' substr
     end.

(** [strconv.Itoa] *)
Definition strconv_Itoa (n : Z) : string := NilZero.string_of_int (Z.to_int n).

(** [sort.Slice]: for the at most twelve elements that all but the largest
    record sets have, Go runs the insertion sort below ([insertionSortLessFunc]):
    element [i] moves left while it is less than its left neighbour.  [sift]
    works on the already sorted prefix in reverse, nearest neighbour first.
    For longer slices Go switches to pattern-defeating quicksort, which yields
    the same list up to the order of elements that [less] does not separate. *)
Fixpoint sift {A} (less : A → A → bool) (x : A) (rprefix : list A) : list A :=
  match rprefix with
  | [] => [x]
  | y :: rest => if less x y then y :: sift less x rest else x :: y :: rest
  end.

Definition sort_Slice {A} (less : A → A → bool) (data : list A) : list A :=
  reverse (foldl (λ rprefix x, sift less x rprefix) [] data).

(** The order in which [sift] keeps the reversed prefix: no element is less
    than the one after it. *)
Definition descending {A} (less : A → A → bool) : relation A :=
  λ a b, less a b = false.

(** ** Kubernetes and Gateway API types *)

Module metav1.

Record LabelSelectorRequirement := mkRequirement {
  Key : string;
  Operator : string;
  Values : list string
}.

(** [v1.LabelSelector].  Both fields may be nil, which [Validate] tells
    apart from empty: [None] is nil. *)
Record LabelSelector := mkLabelSelector {
  MatchLabels : option (gmap string string);
  MatchExpressions : option (list LabelSelectorRequirement)
}.

End metav1.

Module gatewayapiv1.

Definition AddressType := string.
Definition IPAddressType : AddressType := "IPAddress".
Definition HostnameAddressType : AddressType := "Hostname".

Record GatewayStatusAddress := mkAddress {
  Type_ : AddressType;
  Value : string
}.

Record Gateway := mkGateway {
  Name : string;
  Namespace : string;
  Labels : gmap string string;
  Addresses : list GatewayStatusAddress
}.

Record Listener := mkListener {
  Hostname : option string
}.

End gatewayapiv1.

(** The operations the file takes from outside: [v1.LabelSelectorAsSelector]
    ([None] when it returns an error), [labels.Selector.Matches], and
    [hash.ToBase36HashLen]. *)
Class Collaborators := {
  labels_Selector : Type;
  LabelSelectorAsSelector : metav1.LabelSelector → option labels_Selector;
  Matches : labels_Selector → gmap string string → bool;
  hash_ToBase36HashLen : string → nat → string
}.

(** ** api/v1alpha1 *)

Definition RoutingStrategy := string.
Definition SimpleRoutingStrategy : RoutingStrategy := "simple".
Definition LoadBalancedRoutingStrategy : RoutingStrategy := "loadbalanced".

Definition DefaultTTL : Z := 60.
Definition DefaultCnameTTL : Z := 300.
Definition ClusterIDLength : nat := 6.
Definition LabelLBAttributeGeoCode : string := "kuadrant.io/lb-attribute-geo-code".

(** Modelled from the spec: the record-type constants of dnsrecord_types.go,
    which is not among the sources; the unit tests expect the values. *)
Definition ARecordType : string := "A".
Definition CNAMERecordType : string := "CNAME".

(** Modelled from the spec: the sentinel geo code of a gateway without the geo
    label and the wildcard geo, constants of dnsrecord_types.go; the unit tests
    expect [default.klb.<host>] and the geo value of the default record. *)
Definition DefaultGeo : string := "default".
Definition WildcardGeo : string := "*".

(** Modelled from the spec: the names of the two provider-specific properties,
    constants of dnsrecord_types.go; the unit tests expect the names. *)
Definition ProviderSpecificWeight : string := "weight".
Definition ProviderSpecificGeoCode : string := "geo-code".

Definition ErrUnknownRoutingStrategy : string := "unknown routing strategy".

Record CustomWeight := mkCustomWeight {
  Weight : Z;
  Selector : metav1.LabelSelector
}.

(** [Routing] holds all necessary information to generate endpoints. *)
Record Routing := mkRouting {
  Strategy : RoutingStrategy;
  DefaultGeoCode : string;
  DefaultWeight : Z;
  CustomWeights : list CustomWeight;
  ClusterID : string
}.

(** [DNSRecord]: only [Spec.Endpoints] is read. *)
Record DNSRecord := mkDNSRecord {
  Endpoints : list loc
}.

(** An error is its message. *)
Definition error := string.

(** *** Routing.Validate *)

Definition len_map (m : option (gmap string string)) : nat :=
  match m with None => 0 | Some m => size m end.

Definition selector_is_empty (s : metav1.LabelSelector) : bool :=
  bool_decide (metav1.MatchLabels s = None)
  && Nat.eqb (len_map (metav1.MatchLabels s)) 0
  && bool_decide (metav1.MatchExpressions s = None).

(** The loop over [r.CustomWeights] (ranging over a nil slice does nothing, so
    the nil test around the loop needs no case of its own). *)
Fixpoint Validate_customWeights (cws : list CustomWeight) : option error :=
  match cws with
  | [] => None
  | customWeight :: rest =>
      if Weight customWeight =? 0 then Some "custom weight cannot be zero"
      else if selector_is_empty (Selector customWeight)
           then Some "custom weight must define non-empty selector"
           else Validate_customWeights rest
  end.

Definition Validate (r : Routing) : option error :=
  if decide (Strategy r = SimpleRoutingStrategy) then None
  else if decide (ClusterID r = "") then Some "cluster ID is required"
  else if DefaultWeight r =? 0 then Some "default weight is required"
  else if decide (DefaultGeoCode r = "") then Some "default geocode is required"
  else Validate_customWeights (CustomWeights r).

Section Synthesis.
Context `{Collaborators}.

(** *** Routing.getWeight *)

Fixpoint getWeight_loop (cws : list CustomWeight) (labels : gmap string string)
         (weight : Z) : Z :=
  match cws with
  | [] => weight
  | customWeight :: rest =>
      match LabelSelectorAsSelector (Selector customWeight) with
      | None => weight
      | Some selector =>
          if Matches selector labels then Weight customWeight
          else getWeight_loop rest labels weight
      end
  end.

Definition getWeight (r : Routing) (gateway : gatewayapiv1.Gateway) : Z :=
  getWeight_loop (CustomWeights r) (gatewayapiv1.Labels gateway) (DefaultWeight r).

Definition getShortCode (name : string) : string :=
  hash_ToBase36HashLen name ClusterIDLength.

Definition getGeoFromLabel (gateway : gatewayapiv1.Gateway) : string :=
  match gatewayapiv1.Labels gateway !! LabelLBAttributeGeoCode with
  | Some geoCode => geoCode
  | None => DefaultGeo
  end.

Definition isWildCardHost (host : string) : bool := strings_HasPrefix host "*".

Definition getSetID (endpoint : loc) : M string :=
  e <- load endpoint;
  ret (externaldns.DNSName e +:+ externaldns.SetIdentifier e).

Definition createOrUpdateEndpoint (dnsName : string) (targets : list string)
    (recordType : string) (setIdentifier : string) (recordTTL : Z)
    (currentEndpoints : gmap string loc) : M loc :=
  let endpointID := dnsName +:+ setIdentifier in
  endpoint <- match currentEndpoints !! endpointID with
              | Some endpoint => ret endpoint
              | None =>
                  endpoint <- alloc externaldns.zero;
                  _ <- (if decide (setIdentifier ≠ "")
                        then modify endpoint (externaldns.set_SetIdentifier setIdentifier)
                        else ret tt);
                  ret endpoint
              end;
  _ <- modify endpoint (externaldns.set_DNSName dnsName);
  _ <- modify endpoint (externaldns.set_RecordType recordType);
  _ <- modify endpoint (externaldns.set_Targets targets);
  _ <- modify endpoint (externaldns.set_RecordTTL recordTTL);
  ret endpoint.

(** The address loop shared by both strategies: [(ipValues, hostValues)]. *)
Definition splitAddresses (addresses : list gatewayapiv1.GatewayStatusAddress)
  : list string * list string :=
  foldl (λ '(ipValues, hostValues) gwa,
           if decide (gatewayapiv1.Type_ gwa = gatewayapiv1.IPAddressType)
           then (ipValues ++ [gatewayapiv1.Value gwa], hostValues)
           else (ipValues, hostValues ++ [gatewayapiv1.Value gwa]))
        ([], []) addresses.

Definition getSimpleEndpoints (gateway : gatewayapiv1.Gateway) (hostname : string)
    (currentEndpoints : gmap string loc) : M (list loc) :=
  let endpoints : list loc := [] in
  let '(ipValues, hostValues) := splitAddresses (gatewayapiv1.Addresses gateway) in
  endpoints <- (if decide (0 < length ipValues)%nat then
                  endpoint <- createOrUpdateEndpoint hostname ipValues ARecordType ""
                                DefaultTTL currentEndpoints;
                  ret (endpoints ++ [endpoint])
                else ret endpoints);
  endpoints <- (if decide (0 < length hostValues)%nat then
                  endpoint <- createOrUpdateEndpoint hostname hostValues CNAMERecordType ""
                                DefaultTTL currentEndpoints;
                  ret (endpoints ++ [endpoint])
                else ret endpoints);
  ret endpoints.

Definition getLoadBalancedEndpoints (gateway : gatewayapiv1.Gateway) (routing : Routing)
    (hostname : string) (currentEndpoints : gmap string loc) : M (list loc) :=
  let cnameHost :=
    if isWildCardHost hostname then strings_Replace_all hostname "*." "" else hostname in
  let endpoints : list loc := [] in
  let lbName := strings_ToLower ("klb." +:+ cnameHost) in
  let geoCode := getGeoFromLabel gateway in
  let geoLbName := strings_ToLower (geoCode +:+ "." +:+ lbName) in
  let '(ipValues, hostValues) := splitAddresses (gatewayapiv1.Addresses gateway) in
  '(endpoints, hostValues) <-
     (if decide (0 < length ipValues)%nat then
        let clusterLbName :=
          strings_ToLower (getShortCode (ClusterID routing) +:+ "-" +:+
                           getShortCode (gatewayapiv1.Name gateway +:+ "-" +:+
                                         gatewayapiv1.Namespace gateway) +:+
                           "." +:+ lbName) in
        endpoint <- createOrUpdateEndpoint clusterLbName ipValues ARecordType ""
                      DefaultTTL currentEndpoints;
        ret (endpoints ++ [endpoint], hostValues ++ [clusterLbName])
      else ret (endpoints, hostValues));
  endpoints <-
     for_range hostValues (λ hostValue endpoints,
        endpoint <- createOrUpdateEndpoint geoLbName [hostValue] CNAMERecordType hostValue
                      DefaultTTL currentEndpoints;
        _ <- SetProviderSpecificProperty endpoint ProviderSpecificWeight
               (strconv_Itoa (getWeight routing gateway));
        ret (endpoints ++ [endpoint])) endpoints;
  if decide (length endpoints = 0%nat) then ret endpoints
  else
    endpoint <- createOrUpdateEndpoint lbName [geoLbName] CNAMERecordType geoCode
                  DefaultCnameTTL currentEndpoints;
    _ <- (if decide (geoCode ≠ DefaultGeo)
          then SetProviderSpecificProperty endpoint ProviderSpecificGeoCode geoCode
          else ret tt);
    endpoints <- ret (endpoints ++ [endpoint]);
    endpoints <-
      (if decide (geoCode = DefaultGeoCode routing) then
         endpoint <- createOrUpdateEndpoint lbName [geoLbName] CNAMERecordType "default"
                       DefaultCnameTTL currentEndpoints;
         _ <- SetProviderSpecificProperty endpoint ProviderSpecificGeoCode WildcardGeo;
         ret (endpoints ++ [endpoint])
       else ret endpoints);
    if decide (0 < length endpoints)%nat then
      endpoint <- createOrUpdateEndpoint hostname [lbName] CNAMERecordType ""
                    DefaultCnameTTL currentEndpoints;
      ret (endpoints ++ [endpoint])
    else ret endpoints.

(** The map from identity key to previous endpoint; a later endpoint with
    the same key replaces an earlier one. *)
Definition indexEndpoints (previous : list loc) : M (gmap string loc) :=
  for_range previous (λ endpoint currentEndpoints,
    id <- getSetID endpoint;
    ret (<[id := endpoint]> currentEndpoints)) ∅.

(** [sort.Slice(endpoints, ...)] on the key read through each pointer. *)
Definition sortEndpoints (endpoints : list loc) : M (list loc) :=
  λ h, (sort_Slice (λ a b, String.ltb (getSetID a h).1 (getSetID b h).1) endpoints, h).

Definition GenerateEndpoints (gateway : gatewayapiv1.Gateway) (dnsRecord : option DNSRecord)
    (listener : gatewayapiv1.Listener) (routing : Routing)
  : M (list loc * option error) :=
  match gatewayapiv1.Hostname listener with
  | None => ret ([], Some "listener hostname is empty")
  | Some gwListenerHost =>
      match dnsRecord with
      | None => ret ([], Some "require current endpoints")
      | Some dnsRecord =>
          currentEndpoints <- indexEndpoints (Endpoints dnsRecord);
          match Validate routing with
          | Some err => ret ([], Some err)
          | None =>
              if decide (Strategy routing = SimpleRoutingStrategy) then
                endpoints <- getSimpleEndpoints gateway gwListenerHost currentEndpoints;
                endpoints <- sortEndpoints endpoints;
                ret (endpoints, None)
              else if decide (Strategy routing = LoadBalancedRoutingStrategy) then
                endpoints <- getLoadBalancedEndpoints gateway routing gwListenerHost
                               currentEndpoints;
                endpoints <- sortEndpoints endpoints;
                ret (endpoints, None)
              else
                ret ([], Some (ErrUnknownRoutingStrategy +:+ " : " +:+ Strategy routing))
          end
      end
  end.

End Synthesis.

(** ** A small instance of the collaborators

    Used to run the embedding on concrete inputs.  A selector compiles unless
    one of its expressions has an operator other than the four of Kubernetes;
    it matches a label set when every match-label pair is in the set and every
    expression holds.  The short code keeps the first characters of the name
    (the real one is a hash; only its being a function matters here). *)

Definition demo_operator_ok (r : metav1.LabelSelectorRequirement) : bool :=
  bool_decide (metav1.Operator r ∈ ["In"; "NotIn"; "Exists"; "DoesNotExist"]).

Definition demo_compile (s : metav1.LabelSelector) : option metav1.LabelSelector :=
  if forallb demo_operator_ok (default [] (metav1.MatchExpressions s))
  then Some s else None.

Definition demo_requirement (labels : gmap string string)
    (r : metav1.LabelSelectorRequirement) : bool :=
  let v := labels !! metav1.Key r in
  if decide (metav1.Operator r = "In")
  then match v with Some x => bool_decide (x ∈ metav1.Values r) | None => false end
  else if decide (metav1.Operator r = "NotIn")
  then match v with Some x => bool_decide (x ∉ metav1.Values r) | None => true end
  else if decide (metav1.Operator r = "Exists") then bool_decide (is_Some v)
  else bool_decide (v = None).

Definition demo_matches (s : metav1.LabelSelector) (labels : gmap string string) : bool :=
  forallb (λ kv, bool_decide (labels !! kv.1 = Some kv.2))
          (map_to_list (default ∅ (metav1.MatchLabels s)))
  && forallb (demo_requirement labels) (default [] (metav1.MatchExpressions s)).

Definition demo : Collaborators := {|
  labels_Selector := metav1.LabelSelector;
  LabelSelectorAsSelector := demo_compile;
  Matches := demo_matches;
  hash_ToBase36HashLen := λ name n, String.substring 0 n name
|}.

(** The records a list of pointers leads to. *)
Definition records (h : Heap) (ps : list loc) : list externaldns.Endpoint :=
  (λ p, h !!! p) <$> ps.

(** What [createOrUpdateEndpoint] leaves in the heap: a previous record with
    the four synthesized fields overwritten, or a new record. *)
Definition updated (dnsName : string) (targets : list string) (recordType : string)
    (recordTTL : Z) (e : externaldns.Endpoint) : externaldns.Endpoint :=
  externaldns.mkEndpoint dnsName targets recordType (externaldns.SetIdentifier e) recordTTL
    (externaldns.Labels e) (externaldns.ProviderSpecific e).

Definition fresh (dnsName : string) (targets : list string) (recordType : string)
    (setIdentifier : string) (recordTTL : Z) : externaldns.Endpoint :=
  externaldns.mkEndpoint dnsName targets recordType setIdentifier recordTTL ∅ [].

(** The five ways in which a load-balanced routing can be invalid. *)
Definition missing_clusterID (r : Routing) : Prop := ClusterID r = "".
Definition zero_defaultWeight (r : Routing) : Prop := DefaultWeight r = 0.
Definition empty_defaultGeoCode (r : Routing) : Prop := DefaultGeoCode r = "".
Definition zero_customWeight (r : Routing) : Prop :=
  Exists (λ cw, Weight cw = 0) (CustomWeights r).
Definition empty_customSelector (r : Routing) : Prop :=
  Exists (λ cw, metav1.MatchLabels (Selector cw) = None
                ∧ metav1.MatchExpressions (Selector cw) = None) (CustomWeights r).

(** A custom weight that [getWeight] steps over: its selector compiles and
    does not match the labels. *)
Definition steps_over `{Collaborators} (labels : gmap string string) (cw : CustomWeight) : Prop :=
  ∃ s, LabelSelectorAsSelector (Selector cw) = Some s ∧ Matches s labels = false.

(** The order of the result: by identity key, ascending. *)
Definition key_le (h : Heap) : relation loc :=
  λ a b, String.leb (getSetID a h).1 (getSetID b h).1 = true.

(** ** The synthesis as a list of requests

    Every record of the result comes from a call of [createOrUpdateEndpoint],
    possibly followed by one call of [SetProviderSpecificProperty].  A
    [Request] holds the arguments of such a pair of calls; [simpleRequests] and
    [loadBalancedRequests] list the requests of a strategy in the order of the
    calls, and [emit_all] performs them.  That the two strategies are
    [emit_all] of their requests is proved below
    ([getSimpleEndpoints_requests], [getLoadBalancedEndpoints_requests]). *)

Record Request := mkRequest {
  rq_dnsName : string;
  rq_targets : list string;
  rq_recordType : string;
  rq_setIdentifier : string;
  rq_recordTTL : Z;
  rq_property : option (string * string)
}.

Definition rq_key (rq : Request) : string := rq_dnsName rq +:+ rq_setIdentifier rq.

Definition with_property (prop : option (string * string)) (e : externaldns.Endpoint)
  : externaldns.Endpoint :=
  match prop with
  | Some (key, value) =>
      externaldns.set_ProviderSpecific
        (externaldns.setProperty key value (externaldns.ProviderSpecific e)) e
  | None => e
  end.

(** The record a request creates when no previous record has its key. *)
Definition rq_fresh (rq : Request) : externaldns.Endpoint :=
  with_property (rq_property rq)
    (fresh (rq_dnsName rq) (rq_targets rq) (rq_recordType rq) (rq_setIdentifier rq)
       (rq_recordTTL rq)).

(** What a request makes of the previous record with its key. *)
Definition rq_update (rq : Request) (e : externaldns.Endpoint) : externaldns.Endpoint :=
  with_property (rq_property rq)
    (updated (rq_dnsName rq) (rq_targets rq) (rq_recordType rq) (rq_recordTTL rq) e).

Definition emit (cur : gmap string loc) (rq : Request) : M loc :=
  endpoint <- createOrUpdateEndpoint (rq_dnsName rq) (rq_targets rq) (rq_recordType rq)
                (rq_setIdentifier rq) (rq_recordTTL rq) cur;
  _ <- match rq_property rq with
       | Some (key, value) => SetProviderSpecificProperty endpoint key value
       | None => ret tt
       end;
  ret endpoint.

Fixpoint emit_all (cur : gmap string loc) (rqs : list Request) : M (list loc) :=
  match rqs with
  | [] => ret []
  | rq :: rest =>
      endpoint <- emit cur rq;
      endpoints <- emit_all cur rest;
      ret (endpoint :: endpoints)
  end.

Section Requests.
Context `{Collaborators}.

Definition simpleRequests (gateway : gatewayapiv1.Gateway) (hostname : string)
  : list Request :=
  let '(ipValues, hostValues) := splitAddresses (gatewayapiv1.Addresses gateway) in
  (if decide (0 < length ipValues)%nat
   then [mkRequest hostname ipValues ARecordType "" DefaultTTL None] else [])
  ++ (if decide (0 < length hostValues)%nat
      then [mkRequest hostname hostValues CNAMERecordType "" DefaultTTL None] else []).

Definition lbNameOf (hostname : string) : string :=
  strings_ToLower ("klb." +:+
    (if isWildCardHost hostname then strings_Replace_all hostname "*." "" else hostname)).

Definition geoLbNameOf (gateway : gatewayapiv1.Gateway) (hostname : string) : string :=
  strings_ToLower (getGeoFromLabel gateway +:+ "." +:+ lbNameOf hostname).

Definition clusterLbNameOf (gateway : gatewayapiv1.Gateway) (routing : Routing)
    (hostname : string) : string :=
  strings_ToLower (getShortCode (ClusterID routing) +:+ "-" +:+
                   getShortCode (gatewayapiv1.Name gateway +:+ "-" +:+
                                 gatewayapiv1.Namespace gateway) +:+
                   "." +:+ lbNameOf hostname).

(** The requests of step 3: the cluster record and the weighted records. *)
Definition geoRequests (gateway : gatewayapiv1.Gateway) (routing : Routing)
    (hostname : string) : list Request :=
  let '(ipValues, hostValues) := splitAddresses (gatewayapiv1.Addresses gateway) in
  let weight := strconv_Itoa (getWeight routing gateway) in
  let weighted hostValue :=
    mkRequest (geoLbNameOf gateway hostname) [hostValue] CNAMERecordType hostValue
      DefaultTTL (Some (ProviderSpecificWeight, weight)) in
  if decide (0 < length ipValues)%nat
  then mkRequest (clusterLbNameOf gateway routing hostname) ipValues ARecordType ""
         DefaultTTL None
       :: (weighted <$> (hostValues ++ [clusterLbNameOf gateway routing hostname]))
  else weighted <$> hostValues.

(** The requests of steps 4 to 6. *)
Definition lbRequests (gateway : gatewayapiv1.Gateway) (routing : Routing)
    (hostname : string) : list Request :=
  let geoCode := getGeoFromLabel gateway in
  [mkRequest (lbNameOf hostname) [geoLbNameOf gateway hostname] CNAMERecordType geoCode
     DefaultCnameTTL
     (if decide (geoCode ≠ DefaultGeo) then Some (ProviderSpecificGeoCode, geoCode)
      else None)]
  ++ (if decide (geoCode = DefaultGeoCode routing)
      then [mkRequest (lbNameOf hostname) [geoLbNameOf gateway hostname] CNAMERecordType
              "default" DefaultCnameTTL (Some (ProviderSpecificGeoCode, WildcardGeo))]
      else [])
  ++ [mkRequest hostname [lbNameOf hostname] CNAMERecordType "" DefaultCnameTTL None].

Definition loadBalancedRequests (gateway : gatewayapiv1.Gateway) (routing : Routing)
    (hostname : string) : list Request :=
  let geo := geoRequests gateway routing hostname in
  if decide (length geo = 0%nat) then []
  else geo ++ lbRequests gateway routing hostname.

End Requests.

(** ** The effect of a list of requests in closed form *)

(** The pointers [emit_all] returns when the heap has [n] records. *)
Fixpoint locs (cur : gmap string loc) (rqs : list Request) (n : nat) : list loc :=
  match rqs with
  | [] => []
  | rq :: rest =>
      match cur !! rq_key rq with
      | Some p => p :: locs cur rest n
      | None => n :: locs cur rest (S n)
      end
  end.

(** The previous records after the requests that found one. *)
Fixpoint apply_hits (cur : gmap string loc) (rqs : list Request) (h : Heap) : Heap :=
  match rqs with
  | [] => h
  | rq :: rest =>
      match cur !! rq_key rq with
      | Some p => apply_hits cur rest (<[p := rq_update rq (h !!! p)]> h)
      | None => apply_hits cur rest h
      end
  end.

(** The requests that found no previous record. *)
Definition misses (cur : gmap string loc) (rqs : list Request) : list Request :=
  filter (λ rq, cur !! rq_key rq = None) rqs.

(** Every pointer of the index is a record of the heap. *)
Definition index_wf (cur : gmap string loc) (h : Heap) : Prop :=
  ∀ k p, cur !! k = Some p → (p < length h)%nat.

(** What a request leaves alone in a previous record: the set identifier, the
    labels, and the provider-specific properties it does not name. *)
Definition same_but (keys : list string) (e e' : externaldns.Endpoint) : Prop :=
  externaldns.SetIdentifier e' = externaldns.SetIdentifier e
  ∧ externaldns.Labels e' = externaldns.Labels e
  ∧ (∀ k, k ∉ keys →
       externaldns.getProperty k (externaldns.ProviderSpecific e')
       = externaldns.getProperty k (externaldns.ProviderSpecific e))
  ∧ (keys = [] → externaldns.ProviderSpecific e' = externaldns.ProviderSpecific e).

(** The names of the properties that a list of requests sets. *)
Definition property_keys (rqs : list Request) : list string :=
  omap (λ rq, fst <$> rq_property rq) rqs.

Section RequestsOf.
Context `{Collaborators}.

(** The requests of a routing whose strategy is known. *)
Definition requestsOf (gateway : gatewayapiv1.Gateway) (routing : Routing)
    (hostname : string) : list Request :=
  if decide (Strategy routing = SimpleRoutingStrategy)
  then simpleRequests gateway hostname
  else loadBalancedRequests gateway routing hostname.

End RequestsOf.

(** The identity key of the record behind a pointer, and the index of the
    previous records that the loop of [indexEndpoints] builds. *)
Definition key_of (h : Heap) (p : loc) : string :=
  externaldns.DNSName (h !!! p) +:+ externaldns.SetIdentifier (h !!! p).

Definition index_from (h : Heap) (acc : gmap string loc) (previous : list loc)
  : gmap string loc :=
  foldl (λ cur p, <[key_of h p := p]> cur) acc previous.

(** The values of the addresses of type IP, and of the other addresses, in
    the order of the address list. *)
Definition ipValuesOf (gateway : gatewayapiv1.Gateway) : list string :=
  gatewayapiv1.Value <$>
    filter (λ gwa, gatewayapiv1.Type_ gwa = gatewayapiv1.IPAddressType)
           (gatewayapiv1.Addresses gateway).

Definition hostValuesOf (gateway : gatewayapiv1.Gateway) : list string :=
  gatewayapiv1.Value <$>
    filter (λ gwa, gatewayapiv1.Type_ gwa ≠ gatewayapiv1.IPAddressType)
           (gatewayapiv1.Addresses gateway).

(** ** Sample inputs

    The scenarios of the specification: the host [www.example.com], a gateway
    with the two addresses 192.0.2.1 and 192.0.2.2, cluster [C1], default geo
    [IE] and default weight 120. *)

Definition sample_host : string := "www.example.com".
Definition sample_listener : gatewayapiv1.Listener := gatewayapiv1.mkListener (Some sample_host).

Definition sample_ip1 : gatewayapiv1.GatewayStatusAddress :=
  gatewayapiv1.mkAddress gatewayapiv1.IPAddressType "192.0.2.1".
Definition sample_ip2 : gatewayapiv1.GatewayStatusAddress :=
  gatewayapiv1.mkAddress gatewayapiv1.IPAddressType "192.0.2.2".
Definition sample_edge : gatewayapiv1.GatewayStatusAddress :=
  gatewayapiv1.mkAddress gatewayapiv1.HostnameAddressType "edge.example.net".

Definition sample_gateway (labels : gmap string string)
    (addresses : list gatewayapiv1.GatewayStatusAddress) : gatewayapiv1.Gateway :=
  gatewayapiv1.mkGateway "gw" "ns" labels addresses.

Definition geo_label (geoCode : string) : gmap string string :=
  {[ LabelLBAttributeGeoCode := geoCode ]}.

Definition sample_simple : Routing := mkRouting SimpleRoutingStrategy "" 0 [] "".
Definition sample_loadbalanced (customWeights : list CustomWeight) : Routing :=
  mkRouting LoadBalancedRoutingStrategy "IE" 120 customWeights "C1".

(** No previous record. *)
Definition no_records : DNSRecord := mkDNSRecord [].

(** A previous record to which a health check has attached its identifier. *)
Definition health_check : externaldns.ProviderSpecificProperty :=
  externaldns.mkProperty "aws/health-check-id" "hc-1".

Definition previous_record (dnsName setIdentifier : string) : externaldns.Endpoint :=
  externaldns.mkEndpoint dnsName ["192.0.2.9"] "A" setIdentifier 60 ∅ [health_check].

(** Custom weights: two selectors on the label of the unit tests, and one
    whose expression has an operator that does not exist. *)
Definition weight_label : string := "kuadrant.io/my-custom-weight-attr".

Definition weight_for (value : string) (weight : Z) : CustomWeight :=
  mkCustomWeight weight (metav1.mkLabelSelector (Some {[ weight_label := value ]}) None).

Definition weight_malformed (weight : Z) : CustomWeight :=
  mkCustomWeight weight
    (metav1.mkLabelSelector None (Some [metav1.mkRequirement weight_label "Near" ["FOO"]])).

Definition weight_unselective (weight : Z) : CustomWeight :=
  mkCustomWeight weight (metav1.mkLabelSelector None None).

(** The name of the load balancer as the specification words it: "klb."
    followed by the hostname without its leading wildcard label, if it has
    one. *)
Definition spec_lbName (hostname : string) : string :=
  "klb." +:+ (if String.prefix "*." hostname
              then String.substring 2 (String.length hostname - 2) hostname
              else hostname).

(** The four fields that [createOrUpdateEndpoint] writes. *)
Definition synthesized_fields (e : externaldns.Endpoint) : string * string * list string * Z :=
  (externaldns.DNSName e, externaldns.RecordType e, externaldns.Targets e,
   externaldns.RecordTTL e).

(** * Properties *)

(** ** The heap monad *)

Lemma lookup_total_snoc (h : Heap) e : (h ++ [e]) !!! length h = e.
Proof. by rewrite list_lookup_total_middle. Qed.

Lemma insert_snoc (h : Heap) e e' : <[length h := e']> (h ++ [e]) = h ++ [e'].
Proof.
  replace (length h) with (length h + 0)%nat at 1 by lia.
  by rewrite insert_app_r.
Qed.

Lemma createOrUpdateEndpoint_eq dnsName targets recordType setIdentifier recordTTL cur h :
  createOrUpdateEndpoint dnsName targets recordType setIdentifier recordTTL cur h =
  match cur !! (dnsName +:+ setIdentifier) with
  | Some p => (p, <[p := updated dnsName targets recordType recordTTL (h !!! p)]> h)
  | None => (length h, h ++ [fresh dnsName targets recordType setIdentifier recordTTL])
  end.
Proof.
  unfold createOrUpdateEndpoint.
  destruct (cur !! (dnsName +:+ setIdentifier)) as [p|].
  - unfold bind, ret, modify; simpl. f_equal.
    destruct (decide (p < length h)%nat).
    + rewrite !list_lookup_total_insert_eq by (rewrite ?length_insert; done).
      rewrite !list_insert_insert_eq. done.
    + by rewrite !(list_insert_ge h) by lia.
  - unfold bind, ret, modify, alloc; simpl.
    case_decide as Hsid; simpl.
    + repeat (first [rewrite lookup_total_snoc | rewrite insert_snoc]). done.
    + assert (setIdentifier = "") as -> by (by destruct (decide (setIdentifier = "")); [|exfalso; auto]).
      repeat (first [rewrite lookup_total_snoc | rewrite insert_snoc]). done.
Qed.

(** ** Routing.Validate *)

Lemma selector_is_empty_spec s :
  selector_is_empty s = true ↔
  metav1.MatchLabels s = None ∧ metav1.MatchExpressions s = None.
Proof.
  unfold selector_is_empty. destruct s as [[ml|] [me|]]; simpl; split;
    rewrite ?bool_decide_true, ?bool_decide_false by done; simpl;
    try done; by intros [??].
Qed.

Lemma Validate_customWeights_zero cws :
  Exists (λ cw, Weight cw = 0) cws →
  Forall (λ cw, ¬ (metav1.MatchLabels (Selector cw) = None
                   ∧ metav1.MatchExpressions (Selector cw) = None)) cws →
  Validate_customWeights cws = Some "custom weight cannot be zero".
Proof.
  induction cws as [|cw cws IH]; intros Hex Hall; [by inversion Hex|].
  simpl. destruct (Z.eqb_spec (Weight cw) 0) as [|Hw]; [done|].
  inversion Hall as [|? ? Hsel Hall']; subst.
  destruct (selector_is_empty (Selector cw)) eqn:He.
  { by apply selector_is_empty_spec in He. }
  apply IH; [|done]. by inversion Hex.
Qed.

Lemma Validate_customWeights_selector cws :
  Forall (λ cw, Weight cw ≠ 0) cws →
  Exists (λ cw, metav1.MatchLabels (Selector cw) = None
                ∧ metav1.MatchExpressions (Selector cw) = None) cws →
  Validate_customWeights cws = Some "custom weight must define non-empty selector".
Proof.
  induction cws as [|cw cws IH]; intros Hall Hex; [by inversion Hex|].
  simpl. inversion Hall as [|? ? Hw Hall']; subst.
  destruct (Z.eqb_spec (Weight cw) 0) as [|_]; [done|].
  destruct (selector_is_empty (Selector cw)) eqn:He; [done|].
  apply IH; [done|]. inversion Hex as [? ? Hhd|]; [|done].
  apply selector_is_empty_spec in Hhd. congruence.
Qed.

Lemma Validate_customWeights_None cws :
  Validate_customWeights cws = None ↔
  Forall (λ cw, Weight cw ≠ 0 ∧ ¬ (metav1.MatchLabels (Selector cw) = None
                   ∧ metav1.MatchExpressions (Selector cw) = None)) cws.
Proof.
  induction cws as [|cw cws IH]; simpl; [by split|].
  destruct (Z.eqb_spec (Weight cw) 0) as [Hw|Hw].
  { split; [done|]. inversion 1; subst. tauto. }
  destruct (selector_is_empty (Selector cw)) eqn:He.
  { apply selector_is_empty_spec in He. split; [done|]. inversion 1; subst. tauto. }
  rewrite IH. split.
  - intros Hall. constructor; [|done]. split; [done|].
    intros Hs. apply selector_is_empty_spec in Hs. congruence.
  - by inversion 1.
Qed.

(** C2: Validate accepts every simple routing; for a load-balanced routing
    each of the five defects, alone, is reported with a message of its own,
    the five messages differ, and a routing with none of the defects is
    accepted. *)
Theorem Validate_complete :
  (∀ r, Strategy r = SimpleRoutingStrategy → Validate r = None)
  ∧ (∀ r, Strategy r = LoadBalancedRoutingStrategy →
       (missing_clusterID r → ¬ zero_defaultWeight r → ¬ empty_defaultGeoCode r →
        ¬ zero_customWeight r → ¬ empty_customSelector r →
        Validate r = Some "cluster ID is required")
       ∧ (¬ missing_clusterID r → zero_defaultWeight r → ¬ empty_defaultGeoCode r →
          ¬ zero_customWeight r → ¬ empty_customSelector r →
          Validate r = Some "default weight is required")
       ∧ (¬ missing_clusterID r → ¬ zero_defaultWeight r → empty_defaultGeoCode r →
          ¬ zero_customWeight r → ¬ empty_customSelector r →
          Validate r = Some "default geocode is required")
       ∧ (¬ missing_clusterID r → ¬ zero_defaultWeight r → ¬ empty_defaultGeoCode r →
          zero_customWeight r → ¬ empty_customSelector r →
          Validate r = Some "custom weight cannot be zero")
       ∧ (¬ missing_clusterID r → ¬ zero_defaultWeight r → ¬ empty_defaultGeoCode r →
          ¬ zero_customWeight r → empty_customSelector r →
          Validate r = Some "custom weight must define non-empty selector")
       ∧ (¬ missing_clusterID r → ¬ zero_defaultWeight r → ¬ empty_defaultGeoCode r →
          ¬ zero_customWeight r → ¬ empty_customSelector r →
          Validate r = None))
  ∧ NoDup ["cluster ID is required"; "default weight is required";
           "default geocode is required"; "custom weight cannot be zero";
           "custom weight must define non-empty selector"].
Proof.
  split; [|split].
  - intros r Hs. unfold Validate. by rewrite decide_True.
  - intros r Hs.
    assert (Strategy r ≠ SimpleRoutingStrategy) as Hns by (by rewrite Hs).
    unfold missing_clusterID, zero_defaultWeight, empty_defaultGeoCode,
      zero_customWeight, empty_customSelector, Validate.
    rewrite (decide_False (P := Strategy r = SimpleRoutingStrategy)) by done.
    repeat split; intros Hc Hw Hg Hz He.
    + by rewrite decide_True.
    + rewrite decide_False by done. by rewrite Hw.
    + rewrite decide_False by done.
      destruct (Z.eqb_spec (DefaultWeight r) 0); [done|]. by rewrite decide_True.
    + rewrite decide_False by done.
      destruct (Z.eqb_spec (DefaultWeight r) 0); [done|]. rewrite decide_False by done.
      apply Validate_customWeights_zero; [done|].
      apply Forall_forall. intros cw Hin Hcw. apply He, Exists_exists. eauto.
    + rewrite decide_False by done.
      destruct (Z.eqb_spec (DefaultWeight r) 0); [done|]. rewrite decide_False by done.
      apply Validate_customWeights_selector; [|done].
      apply Forall_forall. intros cw Hin Hcw. apply Hz, Exists_exists. eauto.
    + rewrite decide_False by done.
      destruct (Z.eqb_spec (DefaultWeight r) 0); [done|]. rewrite decide_False by done.
      apply Validate_customWeights_None, Forall_forall. intros cw Hin. split.
      * intros Hcw. apply Hz, Exists_exists. eauto.
      * intros Hcw. apply He, Exists_exists. eauto.
  - by apply (bool_decide_unpack _); vm_compute.
Qed.

(** ** Routing.getWeight *)

Section Weights.
Context `{Collaborators}.

Lemma getWeight_loop_steps_over pre rest labels weight :
  Forall (steps_over labels) pre →
  getWeight_loop (pre ++ rest) labels weight = getWeight_loop rest labels weight.
Proof.
  induction 1 as [|cw pre (s & Hs & Hm) _ IH]; [done|].
  simpl. by rewrite Hs, Hm.
Qed.

(** C6: the custom weights are tried in order.  The first entry whose
    selector does not both compile and reject the labels decides: its
    weight when the selector matches, the default weight when the selector
    does not compile.  When every selector compiles and rejects the labels,
    the default weight is returned. *)
Theorem getWeight_first_match (r : Routing) (gateway : gatewayapiv1.Gateway) :
  let labels := gatewayapiv1.Labels gateway in
  (∀ pre cw post s,
      CustomWeights r = pre ++ cw :: post →
      Forall (steps_over labels) pre →
      LabelSelectorAsSelector (Selector cw) = Some s →
      Matches s labels = true →
      getWeight r gateway = Weight cw)
  ∧ (∀ pre cw post,
      CustomWeights r = pre ++ cw :: post →
      Forall (steps_over labels) pre →
      LabelSelectorAsSelector (Selector cw) = None →
      getWeight r gateway = DefaultWeight r)
  ∧ (Forall (steps_over labels) (CustomWeights r) →
     getWeight r gateway = DefaultWeight r).
Proof.
  unfold getWeight. repeat split.
  - intros pre cw post s -> Hpre Hs Hm.
    rewrite getWeight_loop_steps_over by done. simpl. by rewrite Hs, Hm.
  - intros pre cw post -> Hpre Hs.
    rewrite getWeight_loop_steps_over by done. simpl. by rewrite Hs.
  - intros Hall. rewrite <- (app_nil_r (CustomWeights r)).
    by rewrite getWeight_loop_steps_over.
Qed.

End Weights.

(** ** The identity key *)

(** C10: the key of a record is its name directly followed by its set
    identifier, both when the previous records are indexed and when a record
    is looked up; two records with different identities can have the same
    key, and then a lookup for one identity returns the previous record of
    the other. *)
Theorem identity_key_collides :
  (∀ p h, (getSetID p h).1
          = externaldns.DNSName (h !!! p) +:+ externaldns.SetIdentifier (h !!! p))
  ∧ (∀ dnsName targets recordType setIdentifier recordTTL cur h p,
       cur !! (dnsName +:+ setIdentifier) = Some p →
       (createOrUpdateEndpoint dnsName targets recordType setIdentifier recordTTL cur h).1 = p)
  ∧ ∃ e1 e2 : externaldns.Endpoint,
      (externaldns.DNSName e1, externaldns.SetIdentifier e1)
        ≠ (externaldns.DNSName e2, externaldns.SetIdentifier e2)
      ∧ (getSetID 0 [e1]).1 = (getSetID 0 [e2]).1
      ∧ let h := [e1] in
        let cur := (indexEndpoints [0%nat] h).1 in
        let '(p, h') := createOrUpdateEndpoint (externaldns.DNSName e2) ["t"] "CNAME"
                          (externaldns.SetIdentifier e2) 60 cur h in
        p = 0%nat ∧ length h' = 1%nat
        ∧ externaldns.DNSName (h' !!! p) = externaldns.DNSName e2
        ∧ externaldns.SetIdentifier (h' !!! p) = externaldns.SetIdentifier e1.
Proof.
  split; [done|]. split.
  { intros * Hcur. rewrite createOrUpdateEndpoint_eq. by rewrite Hcur. }
  exists (externaldns.mkEndpoint "ab" [] "A" "" 60 ∅ []),
         (externaldns.mkEndpoint "a" [] "A" "b" 60 ∅ []).
  split; [by intros [=]|]. split; [done|]. by vm_compute.
Qed.

(** ** Failures of GenerateEndpoints *)

Section Errors.
Context `{Collaborators}.

Lemma indexEndpoints_heap previous (cur : gmap string loc) h :
  (for_range previous (λ endpoint (currentEndpoints : gmap string loc),
     id <- getSetID endpoint; ret (<[id := endpoint]> currentEndpoints)) cur h).2 = h.
Proof. revert cur. induction previous as [|p ps IH]; intros cur; [done|]. apply IH. Qed.

(** C3: an error is returned exactly when the listener has no hostname, no
    DNS record is given, the routing is invalid or its strategy is unknown;
    with an error no endpoint is returned (and no record has been touched). *)
Theorem GenerateEndpoints_error gateway dnsRecord listener routing h :
  let '(endpoints, err, h') := GenerateEndpoints gateway dnsRecord listener routing h in
  (err ≠ None ↔
     gatewayapiv1.Hostname listener = None
     ∨ dnsRecord = None
     ∨ Validate routing ≠ None
     ∨ (Strategy routing ≠ SimpleRoutingStrategy
        ∧ Strategy routing ≠ LoadBalancedRoutingStrategy))
  ∧ (err ≠ None → endpoints = [] ∧ h' = h).
Proof.
  unfold GenerateEndpoints.
  destruct (gatewayapiv1.Hostname listener) as [host|];
    [|simpl; split; [split; [by auto|done]|done]].
  destruct dnsRecord as [dnsRecord|];
    [|simpl; split; [split; [by auto|done]|done]].
  unfold bind at 1. unfold indexEndpoints.
  pose proof (indexEndpoints_heap (Endpoints dnsRecord) ∅ h) as Hidx.
  destruct (for_range _ _ _ h) as [cur h0]. simpl in Hidx. subst h0.
  destruct (Validate routing) as [err|] eqn:HV;
    [simpl; split; [split; [by auto 6|done]|done]|].
  case_decide as Hs.
  { unfold bind, ret, sortEndpoints.
    destruct (getSimpleEndpoints _ _ _ h) as [eps h1]. split; [|done].
    split; [done|]. intros [|[|[|[??]]]]; done. }
  case_decide as Hl.
  { unfold bind, ret, sortEndpoints.
    destruct (getLoadBalancedEndpoints _ _ _ _ h) as [eps h1]. split; [|done].
    split; [done|]. intros [|[|[|[??]]]]; done. }
  simpl. split; [|done]. split; [by auto 6|done].
Qed.

End Errors.

(** ** Ordering of the result *)

Lemma string_leb_trans (a b c : string) :
  String.leb a b = true → String.leb b c = true → String.leb a c = true.
Proof.
  unfold String.leb. revert b c.
  induction a as [|x a IH]; intros [|y b] [|z c]; simpl; try done.
  unfold Ascii.compare. intros Hab Hbc.
  destruct (N.compare_spec (N_of_ascii x) (N_of_ascii y)) as [Hxy|Hxy|Hxy];
    destruct (N.compare_spec (N_of_ascii y) (N_of_ascii z)) as [Hyz|Hyz|Hyz];
    destruct (N.compare_spec (N_of_ascii x) (N_of_ascii z)) as [Hxz|Hxz|Hxz];
    try done; try lia.
  by apply (IH b c).
Qed.

Lemma string_ltb_leb (a b : string) : String.ltb a b = false ↔ String.leb b a = true.
Proof.
  unfold String.ltb, String.leb. rewrite (String.compare_antisym a b).
  by destruct (String.compare b a).
Qed.

Lemma string_ltb_asym (a b : string) : String.ltb a b = true → String.ltb b a = false.
Proof.
  unfold String.ltb. rewrite (String.compare_antisym a b).
  by destruct (String.compare b a).
Qed.

Lemma Sorted_weaken {A} (R1 R2 : relation A) l :
  (∀ a b, R1 a b → R2 a b) → Sorted R1 l → Sorted R2 l.
Proof.
  intros HR. induction 1 as [|x l Hl IH Hhd]; constructor; [done|].
  destruct Hhd; constructor. by apply HR.
Qed.

Section Sorting.
Context {A : Type} (less : A → A → bool).
Hypothesis less_asym : ∀ a b, less a b = true → less b a = false.

Local Abbreviation desc := (descending less).

Lemma sift_Sorted x rprefix : Sorted desc rprefix → Sorted desc (sift less x rprefix).
Proof.
  induction 1 as [|y rest Hrest IH Hhd]; simpl; [by repeat constructor|].
  destruct (less x y) eqn:Hxy.
  - constructor; [done|].
    destruct Hhd as [|z rest' Hyz]; simpl.
    + constructor. by apply less_asym.
    + destruct (less x z); constructor; [done|]. by apply less_asym.
  - constructor; [by constructor|]. by constructor.
Qed.

Lemma sift_Permutation x rprefix : sift less x rprefix ≡ₚ x :: rprefix.
Proof.
  induction rprefix as [|y rest IH]; simpl; [done|].
  destruct (less x y); [|done]. rewrite IH. apply Permutation_swap.
Qed.

Lemma sort_Slice_Sorted data : Sorted (flip desc) (sort_Slice less data).
Proof.
  unfold sort_Slice. apply Sorted_reverse.
  assert (∀ acc, Sorted desc acc →
            Sorted desc (foldl (λ rprefix x, sift less x rprefix) acc data)) as Hfold.
  { induction data as [|x data IH]; intros acc Hacc; [done|].
    simpl. by apply IH, sift_Sorted. }
  apply Hfold. constructor.
Qed.

Lemma sort_Slice_Permutation data : sort_Slice less data ≡ₚ data.
Proof.
  unfold sort_Slice. rewrite reverse_Permutation.
  assert (∀ acc, foldl (λ rprefix x, sift less x rprefix) acc data ≡ₚ acc ++ data)
    as Hfold.
  { induction data as [|x data IH]; intros acc; simpl; [by rewrite app_nil_r|].
    rewrite IH, sift_Permutation. by rewrite <- Permutation_middle. }
  by rewrite Hfold.
Qed.

End Sorting.

Section Ordering.
Context `{Collaborators}.

Lemma sortEndpoints_spec endpoints h :
  (sortEndpoints endpoints h).2 = h
  ∧ (sortEndpoints endpoints h).1 ≡ₚ endpoints
  ∧ StronglySorted (key_le h) (sortEndpoints endpoints h).1.
Proof.
  unfold sortEndpoints; simpl. split; [done|]. split.
  { apply sort_Slice_Permutation. }
  assert (Transitive (key_le h)) as Htrans.
  { intros a b c. unfold key_le. apply string_leb_trans. }
  apply Sorted_StronglySorted; [done|].
  eapply Sorted_weaken; [|apply sort_Slice_Sorted].
  - intros a b Hab. unfold flip in Hab. by apply string_ltb_leb.
  - intros a b. apply string_ltb_asym.
Qed.

End Ordering.

(** ** The strategies as lists of requests *)

Lemma emit_eq cur rq h :
  emit cur rq h =
  match cur !! rq_key rq with
  | Some p => (p, <[p := rq_update rq (h !!! p)]> h)
  | None => (length h, h ++ [rq_fresh rq])
  end.
Proof.
  unfold emit, bind at 1. rewrite createOrUpdateEndpoint_eq. fold (rq_key rq).
  unfold rq_update, rq_fresh.
  destruct (cur !! rq_key rq) as [p|]; destruct (rq_property rq) as [[key value]|];
    unfold bind, ret, SetProviderSpecificProperty, modify; simpl; try done.
  - f_equal. destruct (decide (p < length h)%nat).
    + rewrite list_lookup_total_insert_eq by done. by rewrite list_insert_insert_eq.
    + by rewrite !(list_insert_ge h) by lia.
  - by rewrite lookup_total_snoc, insert_snoc.
Qed.

Lemma emit_all_app cur rqs1 rqs2 h :
  emit_all cur (rqs1 ++ rqs2) h =
  let '(eps1, h1) := emit_all cur rqs1 h in
  let '(eps2, h2) := emit_all cur rqs2 h1 in
  (eps1 ++ eps2, h2).
Proof.
  revert h. induction rqs1 as [|rq rqs1 IH]; intros h; simpl.
  { unfold ret. by destruct (emit_all cur rqs2 h). }
  unfold bind at 1 3. destruct (emit cur rq h) as [p h0].
  unfold bind, ret. rewrite IH.
  destruct (emit_all cur rqs1 h0) as [eps1 h1].
  by destruct (emit_all cur rqs2 h1) as [eps2 h2].
Qed.

Lemma emit_plain cur dnsName targets recordType setIdentifier recordTTL h :
  emit cur (mkRequest dnsName targets recordType setIdentifier recordTTL None) h
  = createOrUpdateEndpoint dnsName targets recordType setIdentifier recordTTL cur h.
Proof.
  unfold emit, bind, ret; simpl. by destruct (createOrUpdateEndpoint _ _ _ _ _ _ _).
Qed.

Lemma emit_property cur dnsName targets recordType setIdentifier recordTTL key value h :
  emit cur (mkRequest dnsName targets recordType setIdentifier recordTTL (Some (key, value))) h
  = (endpoint <- createOrUpdateEndpoint dnsName targets recordType setIdentifier recordTTL cur;
     _ <- SetProviderSpecificProperty endpoint key value;
     ret endpoint) h.
Proof. done. Qed.

(** One step of a computation: expose and name the result of the next call. *)
Ltac run_step :=
  unfold bind, ret; rewrite ?emit_property, ?emit_plain; unfold bind, ret;
  match goal with
  | |- context [createOrUpdateEndpoint ?a ?b ?c ?d ?e ?f ?g] =>
      destruct (createOrUpdateEndpoint a b c d e f g) as [? ?]
  | |- context [SetProviderSpecificProperty ?a ?b ?c ?g] =>
      destruct (SetProviderSpecificProperty a b c g) as [[] ?]
  end.

Section Strategies.
Context `{Collaborators}.

Lemma getSimpleEndpoints_requests gateway hostname cur h :
  getSimpleEndpoints gateway hostname cur h
  = emit_all cur (simpleRequests gateway hostname) h.
Proof.
  unfold getSimpleEndpoints, simpleRequests.
  destruct (splitAddresses _) as [ipValues hostValues].
  repeat case_decide; simpl; unfold bind, ret; rewrite ?emit_plain;
    repeat (match goal with
            | |- context [createOrUpdateEndpoint ?a ?b ?c ?d ?e ?f ?g] =>
                destruct (createOrUpdateEndpoint a b c d e f g)
            end; simpl; rewrite ?emit_plain); done.
Qed.

Lemma emit_all_length cur rqs h : length (emit_all cur rqs h).1 = length rqs.
Proof.
  revert h. induction rqs as [|rq rqs IH]; intros h; [done|].
  simpl. unfold bind at 1. destruct (emit cur rq h) as [p h0].
  unfold bind, ret. specialize (IH h0). destruct (emit_all cur rqs h0). simpl in *. lia.
Qed.

(** The loop over the host values. *)
Lemma weighted_loop_requests cur geoLbName weight hostValues endpoints h :
  for_range hostValues (λ hostValue endpoints,
      endpoint <- createOrUpdateEndpoint geoLbName [hostValue] CNAMERecordType hostValue
                    DefaultTTL cur;
      _ <- SetProviderSpecificProperty endpoint ProviderSpecificWeight weight;
      ret (endpoints ++ [endpoint])) endpoints h
  = let '(eps, h') :=
      emit_all cur ((λ hostValue,
          mkRequest geoLbName [hostValue] CNAMERecordType hostValue DefaultTTL
            (Some (ProviderSpecificWeight, weight))) <$> hostValues) h in
    (endpoints ++ eps, h').
Proof.
  revert endpoints h.
  induction hostValues as [|hostValue hostValues IH]; intros endpoints h; simpl.
  { unfold ret. by rewrite app_nil_r. }
  unfold bind, ret in *. rewrite emit_property. unfold bind, ret.
  destruct (createOrUpdateEndpoint _ _ _ _ _ _ h) as [p h0].
  destruct (SetProviderSpecificProperty _ _ _ h0) as [[] h1].
  rewrite IH.
  destruct (emit_all _ _ h1) as [eps h2]. by rewrite <- app_assoc.
Qed.

(** Steps 4 to 6. *)
Lemma tail_requests gateway routing hostname cur (endpoints : list loc) h :
  (endpoint <- createOrUpdateEndpoint (lbNameOf hostname) [geoLbNameOf gateway hostname]
                 CNAMERecordType (getGeoFromLabel gateway) DefaultCnameTTL cur;
   _ <- (if decide (getGeoFromLabel gateway ≠ DefaultGeo)
         then SetProviderSpecificProperty endpoint ProviderSpecificGeoCode
                (getGeoFromLabel gateway)
         else ret tt);
   endpoints <- ret (endpoints ++ [endpoint]);
   endpoints <-
     (if decide (getGeoFromLabel gateway = DefaultGeoCode routing) then
        endpoint <- createOrUpdateEndpoint (lbNameOf hostname)
                      [geoLbNameOf gateway hostname] CNAMERecordType "default"
                      DefaultCnameTTL cur;
        _ <- SetProviderSpecificProperty endpoint ProviderSpecificGeoCode WildcardGeo;
        ret (endpoints ++ [endpoint])
      else ret endpoints);
   if decide (0 < length endpoints)%nat then
     endpoint <- createOrUpdateEndpoint hostname [lbNameOf hostname] CNAMERecordType ""
                   DefaultCnameTTL cur;
     ret (endpoints ++ [endpoint])
   else ret endpoints) h
  = let '(eps, h') := emit_all cur (lbRequests gateway routing hostname) h in
    (endpoints ++ eps, h').
Proof.
  unfold lbRequests. cbv zeta. rewrite !emit_all_app.
  repeat case_decide; try done; try congruence;
    simpl emit_all;
    repeat first [rewrite decide_True by (rewrite !length_app; simpl; lia) | run_step];
    by rewrite <- ?app_assoc.
Qed.

End Strategies.

Lemma bind_eq {A B} (m : M A) (f : A → M B) h :
  bind m f h = let (a, h') := m h in f a h'.
Proof. done. Qed.

Lemma emit_all_cons cur rq rqs h :
  emit_all cur (rq :: rqs) h =
  let '(p, h1) := emit cur rq h in
  let '(ps, h2) := emit_all cur rqs h1 in (p :: ps, h2).
Proof. done. Qed.

Section LoadBalanced.
Context `{Collaborators}.

Lemma getLoadBalancedEndpoints_requests gateway routing hostname cur h :
  getLoadBalancedEndpoints gateway routing hostname cur h
  = emit_all cur (loadBalancedRequests gateway routing hostname) h.
Proof.
  unfold getLoadBalancedEndpoints, loadBalancedRequests, geoRequests. cbv zeta.
  change (strings_ToLower ("klb." +:+ (if isWildCardHost hostname
            then strings_Replace_all hostname "*." "" else hostname)))
    with (lbNameOf hostname).
  change (strings_ToLower (getGeoFromLabel gateway +:+ "." +:+ lbNameOf hostname))
    with (geoLbNameOf gateway hostname).
  change (strings_ToLower (getShortCode (ClusterID routing) +:+ "-" +:+
            getShortCode (gatewayapiv1.Name gateway +:+ "-" +:+
                          gatewayapiv1.Namespace gateway) +:+ "." +:+ lbNameOf hostname))
    with (clusterLbNameOf gateway routing hostname).
  destruct (splitAddresses _) as [ipValues hostValues].
  case_decide as Hips.
  - rewrite decide_False by done.
    rewrite bind_eq, bind_eq, emit_all_app, emit_all_cons, emit_plain.
    destruct (createOrUpdateEndpoint _ ipValues _ _ _ _ h) as [p h1].
    unfold ret at 1. rewrite bind_eq, weighted_loop_requests.
    destruct (emit_all cur _ h1) as [eps h2].
    rewrite decide_False by (rewrite !length_app; simpl; lia).
    etrans; [apply tail_requests|].
    destruct (emit_all cur _ h2) as [eps' h3]. done.
  - rewrite bind_eq. unfold ret at 1. rewrite bind_eq, weighted_loop_requests.
    destruct hostValues as [|hostValue hostValues]; [done|].
    rewrite (decide_False (P := length _ = 0%nat)) by done.
    rewrite emit_all_app.
    destruct (emit_all cur _ h) as [eps h2] eqn:Hgeo.
    rewrite decide_False.
    2:{ pose proof (emit_all_length cur
                      ((λ hostValue0, mkRequest (geoLbNameOf gateway hostname) [hostValue0]
                          CNAMERecordType hostValue0 DefaultTTL
                          (Some (ProviderSpecificWeight,
                                 strconv_Itoa (getWeight routing gateway))))
                       <$> hostValue :: hostValues) h) as Hlen.
        rewrite Hgeo in Hlen. simpl in *. lia. }
    etrans; [apply tail_requests|].
    destruct (emit_all cur _ h2) as [eps' h3]. done.
Qed.

End LoadBalanced.

(** ** Requests that find no previous record *)

Lemma emit_all_fresh cur rqs h :
  Forall (λ rq, cur !! rq_key rq = None) rqs →
  emit_all cur rqs h = (seq (length h) (length rqs), h ++ (rq_fresh <$> rqs)).
Proof.
  intros Hall. revert h. induction Hall as [|rq rqs Hrq _ IH]; intros h.
  { simpl. unfold ret. by rewrite app_nil_r. }
  rewrite emit_all_cons, emit_eq, Hrq, IH. rewrite length_app; simpl.
  replace (length h + 1)%nat with (S (length h)) by lia.
  by rewrite <- app_assoc.
Qed.

Lemma records_fresh (h : Heap) (es : list externaldns.Endpoint) :
  records (h ++ es) (seq (length h) (length es)) = es.
Proof.
  unfold records. apply list_eq. intros i.
  rewrite list_lookup_fmap.
  destruct (decide (i < length es)%nat) as [Hi|Hi].
  - rewrite lookup_seq_lt by done. simpl.
    rewrite lookup_total_app_r by lia.
    replace (length h + i - length h)%nat with i by lia.
    destruct (lookup_lt_is_Some_2 es i Hi) as [e He].
    rewrite He. f_equal. by apply list_lookup_total_correct.
  - rewrite lookup_seq_ge by lia. simpl. symmetry. apply lookup_ge_None. lia.
Qed.

(** ** The closed form of a list of requests *)

Lemma apply_hits_length cur rqs h : length (apply_hits cur rqs h) = length h.
Proof.
  revert h. induction rqs as [|rq rqs IH]; intros h; simpl; [done|].
  destruct (cur !! rq_key rq); rewrite IH; by rewrite ?length_insert.
Qed.

Lemma apply_hits_app cur rqs h l :
  index_wf cur h → apply_hits cur rqs (h ++ l) = apply_hits cur rqs h ++ l.
Proof.
  intros Hwf. revert h Hwf. induction rqs as [|rq rqs IH]; intros h Hwf; simpl; [done|].
  destruct (cur !! rq_key rq) as [p|] eqn:Hp; [|by apply IH].
  pose proof (Hwf _ _ Hp) as Hlt.
  rewrite insert_app_l, lookup_total_app_l by done.
  apply IH. intros k q Hq. rewrite length_insert. eauto.
Qed.

Lemma emit_all_closed cur rqs h :
  index_wf cur h →
  emit_all cur rqs h
  = (locs cur rqs (length h), apply_hits cur rqs h ++ (rq_fresh <$> misses cur rqs)).
Proof.
  unfold misses. revert h. induction rqs as [|rq rqs IH]; intros h Hwf.
  { simpl. unfold ret. by rewrite app_nil_r. }
  rewrite emit_all_cons, emit_eq. simpl.
  destruct (cur !! rq_key rq) as [p|] eqn:Hp.
  - rewrite IH by (intros k q Hq; rewrite length_insert; eauto).
    rewrite length_insert. rewrite filter_cons_False by (by rewrite Hp). done.
  - rewrite IH by (intros k q Hq; rewrite length_app; simpl;
                   pose proof (Hwf _ _ Hq); lia).
    rewrite length_app; simpl. replace (length h + 1)%nat with (S (length h)) by lia.
    rewrite filter_cons_True by done. rewrite apply_hits_app by done.
    by rewrite <- app_assoc.
Qed.

Lemma locs_hit cur rqs n rq p :
  rq ∈ rqs → cur !! rq_key rq = Some p → p ∈ locs cur rqs n.
Proof.
  intros Hin Hp. revert n. induction rqs as [|rq' rqs IH]; intros n; simpl.
  { by apply elem_of_nil in Hin. }
  apply elem_of_cons in Hin as [<-|Hin].
  - rewrite Hp. apply list_elem_of_here.
  - destruct (cur !! rq_key rq'); apply list_elem_of_further; by apply IH.
Qed.

Lemma locs_cases cur rqs n q :
  q ∈ locs cur rqs n →
  (∃ rq, rq ∈ rqs ∧ cur !! rq_key rq = Some q)
  ∨ (n ≤ q < n + length (misses cur rqs))%nat.
Proof.
  unfold misses. revert n. induction rqs as [|rq rqs IH]; intros n; simpl.
  { by intros ?%elem_of_nil. }
  destruct (cur !! rq_key rq) as [p|] eqn:Hp.
  - rewrite filter_cons_False by (by rewrite Hp).
    intros [->|Hq]%elem_of_cons.
    + left. exists rq. split; [left|done].
    + destruct (IH _ Hq) as [(rq' & Hin & Hrq')|Hrange]; [|by right].
      left. exists rq'. split; [by right|done].
  - rewrite filter_cons_True by done. simpl.
    intros [->|Hq]%elem_of_cons; [right; lia|].
    destruct (IH _ Hq) as [(rq' & Hin & Hrq')|Hrange]; [|right; lia].
    left. exists rq'. split; [by right|done].
Qed.

(** ** What the requests leave alone *)

Lemma getProperty_setProperty_ne k key value ps :
  k ≠ key →
  externaldns.getProperty k (externaldns.setProperty key value ps)
  = externaldns.getProperty k ps.
Proof.
  intros Hne. induction ps as [|p ps IH]; simpl.
  { by rewrite decide_False. }
  destruct (decide (externaldns.Name p = key)) as [Hp|Hp]; simpl.
  - rewrite !decide_False by congruence. done.
  - by rewrite IH.
Qed.

Lemma same_but_refl keys e : same_but keys e e.
Proof. by repeat split. Qed.

Lemma same_but_trans keys1 keys2 e1 e2 e3 :
  same_but keys1 e1 e2 → same_but keys2 e2 e3 → same_but (keys1 ++ keys2) e1 e3.
Proof.
  intros (Hs1 & Hl1 & Hp1 & Hn1) (Hs2 & Hl2 & Hp2 & Hn2). repeat split.
  - congruence.
  - congruence.
  - intros k Hk. rewrite Hp2, Hp1; [done| |]; intros Hin; apply Hk;
      rewrite elem_of_app; auto.
  - intros [-> ->]%app_eq_nil. rewrite Hn2, Hn1; done.
Qed.

Lemma same_but_update rq e :
  same_but (property_keys [rq]) e (rq_update rq e).
Proof.
  unfold rq_update, property_keys, with_property. simpl.
  destruct (rq_property rq) as [[key value]|]; simpl; [|by repeat split].
  repeat split; [|done]. intros k Hk. simpl.
  apply getProperty_setProperty_ne. intros ->. apply Hk. left.
Qed.

Lemma property_keys_cons rq rqs :
  property_keys (rq :: rqs) = property_keys [rq] ++ property_keys rqs.
Proof. unfold property_keys. simpl. by destruct (rq_property rq). Qed.

Lemma property_keys_app rqs1 rqs2 :
  property_keys (rqs1 ++ rqs2) = property_keys rqs1 ++ property_keys rqs2.
Proof. apply omap_app. Qed.

Lemma apply_hits_same_but cur rqs (h : Heap) p :
  same_but (property_keys rqs) (h !!! p) (apply_hits cur rqs h !!! p).
Proof.
  revert h. induction rqs as [|rq rqs IH]; intros h; [apply same_but_refl|].
  rewrite property_keys_cons.
  simpl apply_hits. destruct (cur !! rq_key rq) as [q|].
  - eapply same_but_trans; [|apply IH].
    destruct (decide (p = q)) as [->|Hne].
    + destruct (decide (q < length h)%nat).
      * rewrite list_lookup_total_insert_eq by done. apply same_but_update.
      * rewrite list_insert_ge by lia. apply same_but_refl.
    + rewrite list_lookup_total_insert_ne by done. apply same_but_refl.
  - eapply same_but_trans; [|apply IH]. apply same_but_refl.
Qed.

(** ** The index of the previous records *)

Lemma indexEndpoints_eq previous h :
  indexEndpoints previous h = (index_from h ∅ previous, h).
Proof.
  unfold indexEndpoints, index_from. generalize (∅ : gmap string loc).
  induction previous as [|p ps IH]; intros acc; [done|].
  simpl. rewrite bind_eq. unfold getSetID at 1. rewrite bind_eq. simpl.
  unfold ret at 1. apply IH.
Qed.

Lemma index_from_Some h acc previous k p :
  index_from h acc previous !! k = Some p →
  (p ∈ previous ∧ key_of h p = k) ∨ acc !! k = Some p.
Proof.
  unfold index_from. revert acc. induction previous as [|q qs IH]; intros acc; simpl.
  { by right. }
  intros [[Hin Hk]|Hacc]%IH.
  - left. split; [by right|done].
  - destruct (decide (key_of h q = k)) as [Heq|Hne].
    + rewrite Heq, lookup_insert_eq in Hacc. injection Hacc as ->.
      left. split; [left|done].
    + rewrite lookup_insert_ne in Hacc by done. by right.
Qed.

Lemma index_from_None h acc previous k :
  (∀ p, p ∈ previous → key_of h p ≠ k) →
  index_from h acc previous !! k = acc !! k.
Proof.
  unfold index_from. revert acc. induction previous as [|q qs IH]; intros acc Hall; simpl.
  { done. }
  rewrite IH by (intros p Hp; apply Hall; by right).
  apply lookup_insert_ne. apply Hall. left.
Qed.

Lemma index_from_unique h acc previous p :
  p ∈ previous →
  (∀ p', p' ∈ previous → key_of h p' = key_of h p → p' = p) →
  index_from h acc previous !! key_of h p = Some p.
Proof.
  unfold index_from. revert acc. induction previous as [|q qs IH]; intros acc Hin Huniq; simpl.
  { by apply elem_of_nil in Hin. }
  destruct (decide (p ∈ qs)) as [Hqs|Hqs].
  { apply IH; [done|]. intros p' Hp'. apply Huniq. by right. }
  apply elem_of_cons in Hin as [->|]; [|done].
  fold (index_from h (<[key_of h q := q]> acc) qs).
  rewrite index_from_None; [apply lookup_insert_eq|].
  intros p' Hp' Hkey. apply Hqs. rewrite <- (Huniq p'); [done|by right|done].
Qed.

Lemma index_from_wf (h : Heap) previous :
  Forall (λ p, p < length h)%nat previous → index_wf (index_from h ∅ previous) h.
Proof.
  intros Hall k p [[Hin _]|Hempty]%index_from_Some; [|by rewrite lookup_empty in Hempty].
  by eapply Forall_forall in Hall.
Qed.

Section Generate.
Context `{Collaborators}.

Lemma GenerateEndpoints_success gateway dnsRecord listener routing h endpoints h' :
  GenerateEndpoints gateway (Some dnsRecord) listener routing h = (endpoints, None, h') →
  ∃ hostname,
    gatewayapiv1.Hostname listener = Some hostname
    ∧ Validate routing = None
    ∧ (Strategy routing = SimpleRoutingStrategy
       ∨ Strategy routing = LoadBalancedRoutingStrategy).
Proof.
  unfold GenerateEndpoints.
  destruct (gatewayapiv1.Hostname listener) as [hostname|]; [|done].
  rewrite bind_eq, indexEndpoints_eq.
  destruct (Validate routing); [done|].
  intros Hrun. exists hostname. split; [done|]. split; [done|].
  destruct (decide (Strategy routing = SimpleRoutingStrategy)); [by left|].
  destruct (decide (Strategy routing = LoadBalancedRoutingStrategy)); [by right|done].
Qed.

Lemma GenerateEndpoints_requests gateway dnsRecord listener routing hostname h :
  gatewayapiv1.Hostname listener = Some hostname →
  Validate routing = None →
  Strategy routing = SimpleRoutingStrategy
    ∨ Strategy routing = LoadBalancedRoutingStrategy →
  GenerateEndpoints gateway (Some dnsRecord) listener routing h =
  let cur := index_from h ∅ (Endpoints dnsRecord) in
  let '(eps, h') := emit_all cur (requestsOf gateway routing hostname) h in
  ((sortEndpoints eps h').1, None, h').
Proof.
  intros Hhost Hvalid Hstrategy. unfold GenerateEndpoints, requestsOf.
  rewrite Hhost, bind_eq, indexEndpoints_eq, Hvalid.
  destruct (decide (Strategy routing = SimpleRoutingStrategy)) as [Hs|Hs].
  - rewrite bind_eq, getSimpleEndpoints_requests.
    by destruct (emit_all _ _ h) as [eps h'].
  - destruct Hstrategy as [|Hl]; [done|]. rewrite decide_True by done.
    rewrite bind_eq, getLoadBalancedEndpoints_requests.
    by destruct (emit_all _ _ h) as [eps h'].
Qed.

End Generate.

Section Sorted.
Context `{Collaborators}.


End Sorted.

(** ** The simple strategy *)

Lemma string_app_empty_r (s : string) : s +:+ "" = s.
Proof.
  induction s as [|c s IH]; [done|].
  change (String c (s +:+ "") = String c s). by rewrite IH.
Qed.

Lemma splitAddresses_values gateway :
  splitAddresses (gatewayapiv1.Addresses gateway) = (ipValuesOf gateway, hostValuesOf gateway).
Proof.
  unfold splitAddresses, ipValuesOf, hostValuesOf.
  generalize (gatewayapiv1.Addresses gateway). intros addresses.
  assert (∀ ips hosts,
    foldl (λ '(ipValues, hostValues) gwa,
             if decide (gatewayapiv1.Type_ gwa = gatewayapiv1.IPAddressType)
             then (ipValues ++ [gatewayapiv1.Value gwa], hostValues)
             else (ipValues, hostValues ++ [gatewayapiv1.Value gwa]))
          (ips, hosts) addresses
    = (ips ++ (gatewayapiv1.Value <$>
                 filter (λ gwa, gatewayapiv1.Type_ gwa = gatewayapiv1.IPAddressType) addresses),
       hosts ++ (gatewayapiv1.Value <$>
                 filter (λ gwa, gatewayapiv1.Type_ gwa ≠ gatewayapiv1.IPAddressType) addresses)))
    as Hfold.
  { induction addresses as [|gwa addresses IH]; intros ips hosts; simpl.
    { by rewrite !app_nil_r. }
    destruct (decide (gatewayapiv1.Type_ gwa = gatewayapiv1.IPAddressType)) as [Hip|Hip].
    - rewrite IH, filter_cons_True, filter_cons_False by auto.
      by rewrite fmap_cons, <- app_assoc.
    - rewrite IH, filter_cons_False, filter_cons_True by auto.
      by rewrite fmap_cons, <- app_assoc. }
  apply Hfold.
Qed.

Section Simple.
Context `{Collaborators}.

Lemma simpleRequests_values gateway hostname :
  simpleRequests gateway hostname =
  (if decide (ipValuesOf gateway = []) then []
   else [mkRequest hostname (ipValuesOf gateway) ARecordType "" DefaultTTL None])
  ++ (if decide (hostValuesOf gateway = []) then []
      else [mkRequest hostname (hostValuesOf gateway) CNAMERecordType "" DefaultTTL None]).
Proof.
  unfold simpleRequests. rewrite splitAddresses_values.
  destruct (ipValuesOf gateway), (hostValuesOf gateway); simpl; repeat case_decide;
    simpl in *; try done; lia.
Qed.

(** C4 (as amended): under the simple strategy the addresses are split into
    the IP values and the other values.  When no previous record has the
    hostname as key, the result is exactly: an A record with all the IP
    values if there is one, then a CNAME record with all the other values
    if there is one; each is a new record named after the hostname, with
    TTL 60, no set identifier, no label and no provider-specific property.
    When a previous record has that key and the addresses are of one kind
    only, the result is that record alone, with its name, type, targets and
    TTL overwritten and the rest as it was. *)
Theorem simple_strategy_records gateway hostname cur h :
  let ips := ipValuesOf gateway in
  let hosts := hostValuesOf gateway in
  let '(endpoints, h') := getSimpleEndpoints gateway hostname cur h in
  (cur !! hostname = None →
     records h' endpoints =
       (if decide (ips = []) then []
        else [externaldns.mkEndpoint hostname ips "A" "" 60 ∅ []])
       ++ (if decide (hosts = []) then []
           else [externaldns.mkEndpoint hostname hosts "CNAME" "" 60 ∅ []])
     ∧ NoDup endpoints
     ∧ Forall (λ p, length h ≤ p)%nat endpoints)
  ∧ (∀ p, cur !! hostname = Some p → (p < length h)%nat → ips = [] ∨ hosts = [] →
       endpoints = (if decide (ips = [] ∧ hosts = []) then [] else [p])
       ∧ records h' endpoints =
           (if decide (ips = []) then []
            else [externaldns.mkEndpoint hostname ips "A"
                    (externaldns.SetIdentifier (h !!! p)) 60
                    (externaldns.Labels (h !!! p))
                    (externaldns.ProviderSpecific (h !!! p))])
           ++ (if decide (hosts = []) then []
               else [externaldns.mkEndpoint hostname hosts "CNAME"
                       (externaldns.SetIdentifier (h !!! p)) 60
                       (externaldns.Labels (h !!! p))
                       (externaldns.ProviderSpecific (h !!! p))])).
Proof.
  intros ips hosts.
  rewrite getSimpleEndpoints_requests, simpleRequests_values.
  fold ips hosts.
  destruct (emit_all cur _ h) as [endpoints h'] eqn:Hrun. split.
  - intros Hcur. rewrite emit_all_fresh in Hrun.
    2:{ destruct (decide (ips = [])), (decide (hosts = [])); repeat constructor;
          unfold rq_key; cbn [rq_dnsName rq_setIdentifier];
          by rewrite string_app_empty_r. }
    injection Hrun as <- <-.
    rewrite <- (length_fmap rq_fresh), records_fresh.
    split; [|split].
    + rewrite fmap_app. by destruct (decide (ips = [])), (decide (hosts = [])).
    + apply NoDup_seq.
    + apply Forall_forall. intros p [??]%elem_of_seq. lia.
  - intros p Hcur Hp Hkind.
    assert (∀ targets ty, cur !! rq_key (mkRequest hostname targets ty "" DefaultTTL None)
                          = Some p) as Hkey.
    { intros. unfold rq_key; cbn [rq_dnsName rq_setIdentifier].
      by rewrite string_app_empty_r. }
    destruct (decide (ips = [])) as [Hips|Hips];
      destruct (decide (hosts = [])) as [Hhosts|Hhosts]; cbn [app] in Hrun.
    + rewrite decide_True by done. by injection Hrun as <- <-.
    + rewrite decide_False by tauto.
      rewrite emit_all_cons, emit_eq, Hkey in Hrun. injection Hrun as <- <-.
      unfold records. simpl. by rewrite list_lookup_total_insert_eq.
    + rewrite decide_False by tauto.
      rewrite emit_all_cons, emit_eq, Hkey in Hrun. injection Hrun as <- <-.
      unfold records. simpl. by rewrite list_lookup_total_insert_eq.
    + tauto.
Qed.

End Simple.

(** The simple strategy at the first scenario of the specification. *)
Lemma simple_strategy_records_witness :
  let gateway := sample_gateway ∅ [sample_ip1; sample_ip2] in
  (∅ : gmap string loc) !! sample_host = None
  ∧ records (getSimpleEndpoints gateway sample_host ∅ []).2
            (getSimpleEndpoints gateway sample_host ∅ []).1
    = [externaldns.mkEndpoint sample_host ["192.0.2.1"; "192.0.2.2"] "A" "" 60 ∅ []].
Proof.
  intros gateway. split; [reflexivity|].
  pose proof (simple_strategy_records gateway sample_host ∅ []) as Hthm.
  cbv zeta in Hthm.
  destruct (getSimpleEndpoints gateway sample_host ∅ []) as [endpoints h'].
  destruct Hthm as [Hfresh _]. destruct (Hfresh eq_refl) as [Hrecords _].
  exact Hrecords.
Defined.

(** A previous record for the hostname keeps what was attached to it: the
    record of the result has a provider-specific property. *)
Lemma simple_strategy_keeps_properties :
  let gateway := sample_gateway ∅ [sample_ip1; sample_ip2] in
  let h := [previous_record sample_host ""] in
  let '(endpoints, err, h') :=
    GenerateEndpoints (H := demo) gateway (Some (mkDNSRecord [0%nat])) sample_listener
      sample_simple h in
  err = None
  ∧ records h' endpoints
    = [externaldns.mkEndpoint sample_host ["192.0.2.1"; "192.0.2.2"] "A" "" 60 ∅
         [health_check]]
  ∧ ¬ Forall (λ e, externaldns.ProviderSpecific e = []) (records h' endpoints).
Proof.
  vm_compute. split; [done|]. split; [done|]. by inversion 1.
Qed.

(** With addresses of both kinds and a previous record for the hostname, the
    two requests find the same record: the result lists it twice, as a CNAME
    record, and the IP values are in no record. *)
Lemma simple_strategy_shared_record :
  let gateway := sample_gateway ∅ [sample_ip1; sample_edge] in
  let h := [previous_record sample_host ""] in
  let '(endpoints, err, h') :=
    GenerateEndpoints (H := demo) gateway (Some (mkDNSRecord [0%nat])) sample_listener
      sample_simple h in
  err = None ∧ endpoints = [0; 0]%nat
  ∧ h' = [externaldns.mkEndpoint sample_host ["edge.example.net"] "CNAME" "" 60 ∅
            [health_check]].
Proof. by vm_compute. Qed.

(** ** The theorems at the sample inputs *)

Lemma Validate_complete_witness :
  Validate sample_simple = None
  ∧ Validate (mkRouting LoadBalancedRoutingStrategy "IE" 120 [weight_for "FOO" 100] "")
    = Some "cluster ID is required"
  ∧ Validate (mkRouting LoadBalancedRoutingStrategy "IE" 0 [weight_for "FOO" 100] "C1")
    = Some "default weight is required"
  ∧ Validate (mkRouting LoadBalancedRoutingStrategy "" 120 [weight_for "FOO" 100] "C1")
    = Some "default geocode is required"
  ∧ Validate (sample_loadbalanced [weight_for "FOO" 100; weight_for "BAR" 0])
    = Some "custom weight cannot be zero"
  ∧ Validate (sample_loadbalanced [weight_for "FOO" 100; weight_unselective 50])
    = Some "custom weight must define non-empty selector"
  ∧ Validate (sample_loadbalanced [weight_for "FOO" 100]) = None.
Proof.
  destruct Validate_complete as (Hsimple & Hlb & _).
  split; [by apply Hsimple|].
  split; [|split; [|split; [|split; [|split]]]];
    apply Hlb; unfold missing_clusterID, zero_defaultWeight, empty_defaultGeoCode,
      zero_customWeight, empty_customSelector; simpl; try done;
    try (apply Exists_cons_tl, Exists_cons_hd; done);
    intros Hex; repeat (apply Exists_cons in Hex as [Hex|Hex];
                        [simpl in Hex; try done; by destruct Hex|]);
    by apply Exists_nil in Hex.
Defined.

Lemma getWeight_first_match_witness :
  let gateway := sample_gateway {[ weight_label := "FOO" ]} [sample_ip1] in
  getWeight (H := demo)
    (sample_loadbalanced [weight_for "BAR" 50; weight_for "FOO" 100; weight_malformed 70])
    gateway = 100
  ∧ getWeight (H := demo)
      (sample_loadbalanced [weight_for "BAR" 50; weight_malformed 70; weight_for "FOO" 100])
      gateway = 120
  ∧ getWeight (H := demo) (sample_loadbalanced [weight_for "BAR" 50]) gateway = 120.
Proof.
  intros gateway.
  assert (steps_over (H := demo) (gatewayapiv1.Labels gateway) (weight_for "BAR" 50))
    as Hbar.
  { eexists. split; [reflexivity|]. by vm_compute. }
  split; [|split].
  - destruct (getWeight_first_match (H := demo)
      (sample_loadbalanced [weight_for "BAR" 50; weight_for "FOO" 100; weight_malformed 70])
      gateway) as (Hmatch & _ & _).
    eapply (Hmatch [weight_for "BAR" 50] (weight_for "FOO" 100) [weight_malformed 70]).
    + reflexivity.
    + by constructor.
    + reflexivity.
    + by vm_compute.
  - destruct (getWeight_first_match (H := demo)
      (sample_loadbalanced [weight_for "BAR" 50; weight_malformed 70; weight_for "FOO" 100])
      gateway) as (_ & Hmalformed & _).
    eapply (Hmalformed [weight_for "BAR" 50] (weight_malformed 70) [weight_for "FOO" 100]).
    + reflexivity.
    + by constructor.
    + by vm_compute.
  - destruct (getWeight_first_match (H := demo)
      (sample_loadbalanced [weight_for "BAR" 50]) gateway) as (_ & _ & Hnone).
    apply Hnone. by constructor.
Defined.


(** ** The load-balanced strategy: steps 4 to 6 *)

Lemma emit_all_heap_length cur rqs (h : Heap) :
  (length h ≤ length (emit_all cur rqs h).2)%nat.
Proof.
  revert h. induction rqs as [|rq rqs IH]; intros h; [done|].
  rewrite emit_all_cons, emit_eq.
  destruct (cur !! rq_key rq) as [p|].
  - specialize (IH (<[p := rq_update rq (h !!! p)]> h)).
    destruct (emit_all cur rqs _) as [ps h2]. simpl in *.
    by rewrite length_insert in IH.
  - specialize (IH (h ++ [rq_fresh rq])).
    destruct (emit_all cur rqs _) as [ps h2]. simpl in *.
    rewrite length_app in IH. lia.
Qed.

Section Upper.
Context `{Collaborators}.

Lemma geoRequests_nil gateway routing hostname :
  geoRequests gateway routing hostname = [] ↔ gatewayapiv1.Addresses gateway = [].
Proof.
  unfold geoRequests. rewrite splitAddresses_values.
  unfold ipValuesOf, hostValuesOf.
  destruct (gatewayapiv1.Addresses gateway) as [|gwa addresses]; [done|].
  split; [|done].
  destruct (decide (gatewayapiv1.Type_ gwa = gatewayapiv1.IPAddressType)) as [Hip|Hip].
  - rewrite filter_cons_True by done. rewrite fmap_cons.
    by rewrite decide_True by (simpl; lia).
  - rewrite (filter_cons_False (λ gwa, gatewayapiv1.Type_ gwa = _)) by done.
    rewrite (filter_cons_True (λ gwa, gatewayapiv1.Type_ gwa ≠ _)) by done.
    rewrite fmap_cons. case_decide; [done|]. by rewrite fmap_cons.
Qed.


End Upper.



(** ** The names of the load-balanced strategy *)

Lemma Replace_from_absent old new s :
  strings_Contains s old = false → Replace_from old new 0 s = s.
Proof.
  induction s as [|c s IH]; [done|].
  cbn [strings_Contains Replace_from]. intros [Hpre Hs]%orb_false_elim.
  rewrite Hpre. by rewrite IH.
Qed.

Lemma Replace_all_leading_wildcard base :
  strings_Replace_all ("*." +:+ base) "*." "" = strings_Replace_all base "*." "".
Proof. by destruct base. Qed.

Section Names.
Context `{Collaborators}.

(** C9 (as amended): the load-balancer name is the lower-cased "klb."+base,
    where base is the hostname itself when it does not begin with "*", and
    the hostname without its leading "*." when nothing else in it reads "*.";
    the last record of the result, the alias that clients resolve, is named
    after the hostname as given and targets the load-balancer name. *)
Theorem loadbalanced_names gateway routing hostname cur h :
  (isWildCardHost hostname = false →
     lbNameOf hostname = strings_ToLower ("klb." +:+ hostname))
  ∧ (∀ base, hostname = "*." +:+ base → strings_Contains base "*." = false →
       lbNameOf hostname = strings_ToLower ("klb." +:+ base))
  ∧ (gatewayapiv1.Addresses gateway ≠ [] → index_wf cur h →
     let '(endpoints, h') := getLoadBalancedEndpoints gateway routing hostname cur h in
     ∃ others root,
       endpoints = others ++ [root]
       ∧ externaldns.DNSName (h' !!! root) = hostname
       ∧ externaldns.RecordType (h' !!! root) = "CNAME"
       ∧ externaldns.Targets (h' !!! root) = [lbNameOf hostname]).
Proof.
  split; [|split].
  - intros Hwild. unfold lbNameOf. by rewrite Hwild.
  - intros base -> Hbase. unfold lbNameOf.
    change (isWildCardHost ("*." +:+ base)) with true. cbv iota.
    rewrite Replace_all_leading_wildcard. unfold strings_Replace_all.
    by rewrite Replace_from_absent.
  - intros Haddr Hwf.
    rewrite getLoadBalancedEndpoints_requests. unfold loadBalancedRequests. cbv zeta.
    rewrite decide_False.
    2:{ intros Hnil%nil_length_inv. by apply geoRequests_nil in Hnil. }
    unfold lbRequests. rewrite !app_assoc, emit_all_app.
    pose proof (emit_all_heap_length cur
      ((geoRequests gateway routing hostname ++
        [mkRequest (lbNameOf hostname) [geoLbNameOf gateway hostname] CNAMERecordType
           (getGeoFromLabel gateway) DefaultCnameTTL
           (if decide (getGeoFromLabel gateway ≠ DefaultGeo)
            then Some (ProviderSpecificGeoCode, getGeoFromLabel gateway) else None)]) ++
       (if decide (getGeoFromLabel gateway = DefaultGeoCode routing)
        then [mkRequest (lbNameOf hostname) [geoLbNameOf gateway hostname] CNAMERecordType
                "default" DefaultCnameTTL (Some (ProviderSpecificGeoCode, WildcardGeo))]
        else [])) h) as Hgrow.
    destruct (emit_all cur _ h) as [others h2]. simpl in Hgrow.
    rewrite emit_all_cons, emit_eq.
    destruct (cur !! rq_key _) as [p|] eqn:Hp; simpl.
    + exists others, p. split; [done|].
      pose proof (Hwf _ _ Hp).
      rewrite list_lookup_total_insert_eq by lia. done.
    + exists others, (length h2). split; [done|].
      by rewrite lookup_total_snoc.
Qed.

End Names.

(** Scenario 6 of the specification: a wildcard host. *)
Lemma loadbalanced_names_witness :
  let hostname := "*.www.example.com" in
  let gateway := sample_gateway (geo_label "IE") [sample_ip1; sample_ip2] in
  let run := getLoadBalancedEndpoints (H := demo) gateway (sample_loadbalanced [])
               hostname ∅ [] in
  hostname = "*." +:+ "www.example.com"
  ∧ strings_Contains "www.example.com" "*." = false
  ∧ lbNameOf hostname = "klb.www.example.com"
  ∧ ∃ others root,
      run.1 = others ++ [root]
      ∧ externaldns.DNSName (run.2 !!! root) = "*.www.example.com"
      ∧ externaldns.RecordType (run.2 !!! root) = "CNAME"
      ∧ externaldns.Targets (run.2 !!! root) = ["klb.www.example.com"].
Proof.
  intros hostname gateway run.
  destruct (loadbalanced_names (H := demo) gateway (sample_loadbalanced []) hostname ∅ [])
    as (_ & Hstrip & Hroot).
  assert (lbNameOf hostname = "klb.www.example.com") as Hname.
  { exact (Hstrip "www.example.com" eq_refl eq_refl). }
  split; [reflexivity|]. split; [reflexivity|]. split; [exact Hname|].
  assert (index_wf (∅ : gmap string loc) []) as Hwf.
  { intros k p Hk. by rewrite lookup_empty in Hk. }
  specialize (Hroot ltac:(done) Hwf). fold run in Hroot. destruct run as [endpoints h'].
  destruct Hroot as (others & root & Hsplit & Hdns & Hty & Htargets).
  exists others, root. rewrite Hname in Htargets. done.
Defined.

(** The load-balancer name is lower-cased: for a hostname with capital letters
    it is not "klb." followed by the hostname. *)
Lemma loadbalanced_name_lowercased :
  let hostname := "Shop.Example.com" in
  let gateway := sample_gateway (geo_label "IE") [sample_edge] in
  let '(endpoints, h') :=
    getLoadBalancedEndpoints (H := demo) gateway (sample_loadbalanced []) hostname ∅ [] in
  spec_lbName hostname = "klb.Shop.Example.com"
  ∧ lbNameOf hostname = "klb.shop.example.com"
  ∧ ∃ e, last (records h' endpoints) = Some e
         ∧ externaldns.DNSName e = hostname
         ∧ externaldns.Targets e = ["klb.shop.example.com"]
         ∧ externaldns.Targets e ≠ [spec_lbName hostname].
Proof.
  vm_compute. split; [done|]. split; [done|]. eexists. by repeat split.
Qed.

(** Every occurrence of "*." is removed from a hostname that begins with "*",
    not only a leading one. *)
Lemma loadbalanced_name_inner_wildcard :
  lbNameOf "*.a.*.b" = "klb.a.b" ∧ spec_lbName "*.a.*.b" = "klb.a.*.b".
Proof. by vm_compute. Qed.

(** ** Reordering the inputs *)

Section Reordering.
Context `{Collaborators}.






End Reordering.



(** Moving a selector that does not compile before the only matching one
    changes the weight from that of the match to the default. *)
Lemma permuted_weights_malformed :
  let gateway := sample_gateway (<[ weight_label := "FOO" ]> (geo_label "IE")) [sample_edge] in
  getWeight (H := demo) (sample_loadbalanced [weight_for "FOO" 100; weight_malformed 70])
    gateway = 100
  ∧ getWeight (H := demo) (sample_loadbalanced [weight_malformed 70; weight_for "FOO" 100])
      gateway = 120
  ∧ Validate (sample_loadbalanced [weight_malformed 70; weight_for "FOO" 100]) = None.
Proof. by vm_compute. Qed.

(** ** Identity preservation *)

Lemma index_from_is_Some h acc previous k :
  is_Some (acc !! k) ∨ (∃ p, p ∈ previous ∧ key_of h p = k) →
  is_Some (index_from h acc previous !! k).
Proof.
  unfold index_from. revert acc. induction previous as [|q qs IH]; intros acc; simpl.
  { intros [|(p & Hp & _)]; [done|]. by apply elem_of_nil in Hp. }
  intros Hk. apply IH.
  destruct (decide (key_of h q = k)) as [<-|Hne].
  { left. by rewrite lookup_insert_eq. }
  rewrite lookup_insert_ne by done.
  destruct Hk as [|(p & [->|Hp]%elem_of_cons & Hkey)]; [by left|done|].
  right. eauto.
Qed.

Lemma rq_fresh_identity rq :
  externaldns.DNSName (rq_fresh rq) = rq_dnsName rq
  ∧ externaldns.SetIdentifier (rq_fresh rq) = rq_setIdentifier rq.
Proof. unfold rq_fresh, with_property. by destruct (rq_property rq) as [[??]|]. Qed.

Section Identity.
Context `{Collaborators}.

Lemma property_keys_requestsOf gateway routing hostname :
  property_keys (simpleRequests gateway hostname) = []
  ∧ ∀ k, k ∈ property_keys (loadBalancedRequests gateway routing hostname) →
         k = ProviderSpecificWeight ∨ k = ProviderSpecificGeoCode.
Proof.
  split.
  - rewrite simpleRequests_values. by repeat case_decide.
  - unfold loadBalancedRequests, geoRequests, lbRequests. cbv zeta.
    destruct (splitAddresses _) as [ipValues hostValues].
    assert (∀ geoLbName weight (values : list string),
      Forall (λ k, k = ProviderSpecificWeight ∨ k = ProviderSpecificGeoCode)
        (property_keys ((λ hostValue,
           mkRequest geoLbName [hostValue] CNAMERecordType hostValue DefaultTTL
             (Some (ProviderSpecificWeight, weight))) <$> values))) as Hweighted.
    { intros geoLbName weight values. induction values as [|v values IH]; [constructor|].
      rewrite fmap_cons, property_keys_cons. apply Forall_app. split; [|done].
      apply Forall_cons. split; [by left|by apply Forall_nil]. }
    apply Forall_forall.
    case_decide; [constructor|].
    rewrite property_keys_app. apply Forall_app. split.
    + case_decide; [rewrite property_keys_cons; apply Forall_app; split;
                    [constructor|]|]; apply Hweighted.
    + rewrite !property_keys_app. repeat (apply Forall_app; split);
        repeat case_decide; unfold property_keys; simpl;
        repeat (apply Forall_cons; split; [first [by left|by right]|]); by apply Forall_nil.
Qed.

(** A call without previous records allocates one record for each request, in
    the order of the requests. *)
Lemma run_without_records gateway listener routing endpoints0 h0 :
  GenerateEndpoints gateway (Some no_records) listener routing [] = (endpoints0, None, h0) →
  ∃ hostname,
    gatewayapiv1.Hostname listener = Some hostname
    ∧ Validate routing = None
    ∧ (Strategy routing = SimpleRoutingStrategy
       ∨ Strategy routing = LoadBalancedRoutingStrategy)
    ∧ h0 = rq_fresh <$> requestsOf gateway routing hostname
    ∧ endpoints0 ≡ₚ seq 0 (length (requestsOf gateway routing hostname)).
Proof.
  intros Hrun.
  destruct (GenerateEndpoints_success _ _ _ _ _ _ _ Hrun)
    as (hostname & Hhost & Hvalid & Hstrategy).
  exists hostname. split; [done|]. split; [done|]. split; [done|].
  rewrite (GenerateEndpoints_requests _ _ _ _ hostname) in Hrun by done.
  cbv zeta in Hrun. rewrite emit_all_fresh in Hrun.
  2:{ apply Forall_forall. intros rq _. apply lookup_empty. }
  destruct (sortEndpoints_spec (seq 0 (length (requestsOf gateway routing hostname)))
              ([] ++ (rq_fresh <$> requestsOf gateway routing hostname)))
    as (_ & Hperm & _).
  simpl in Hrun. injection Hrun as <- <-. done.
Qed.

End Identity.

Lemma synthesized_fields_request rq e :
  synthesized_fields (rq_update rq e) = synthesized_fields (rq_fresh rq).
Proof. unfold rq_update, rq_fresh, with_property. by destruct (rq_property rq) as [[??]|]. Qed.

Lemma apply_hits_untouched cur rqs (h : Heap) p :
  Forall (λ rq, cur !! rq_key rq ≠ Some p) rqs →
  apply_hits cur rqs h !!! p = h !!! p.
Proof.
  intros Hall. revert h. induction Hall as [|rq rqs Hrq _ IH]; intros h; [done|].
  simpl. destruct (cur !! rq_key rq) as [q|]; [|apply IH].
  rewrite IH. apply list_lookup_total_insert_ne. congruence.
Qed.

(** A previous record that some request finds ends with the four fields of
    the last request that finds it. *)
Lemma apply_hits_last cur rqs (h : Heap) p :
  (p < length h)%nat →
  Exists (λ rq, cur !! rq_key rq = Some p) rqs →
  ∃ rq, rq ∈ rqs ∧ cur !! rq_key rq = Some p
        ∧ synthesized_fields (apply_hits cur rqs h !!! p) = synthesized_fields (rq_fresh rq).
Proof.
  revert h. induction rqs as [|rq rqs IH]; intros h Hp Hex; [by inversion Hex|].
  destruct (decide (Exists (λ rq, cur !! rq_key rq = Some p) rqs)) as [Hrest|Hrest].
  - simpl. destruct (cur !! rq_key rq) as [q|].
    + destruct (IH (<[q := rq_update rq (h !!! q)]> h)) as (rq' & Hin & Hhit & Hfields);
        [by rewrite length_insert|done|].
      exists rq'. split; [by right|done].
    + destruct (IH h) as (rq' & Hin & Hhit & Hfields); [done|done|].
      exists rq'. split; [by right|done].
  - apply Exists_cons in Hex as [Hhit|]; [|done].
    apply not_Exists_Forall in Hrest; [|intros rq'; apply _].
    exists rq. split; [left|]. split; [done|].
    simpl. rewrite Hhit, apply_hits_untouched by done.
    rewrite list_lookup_total_insert_eq by done. apply synthesized_fields_request.
Qed.

Section Preservation.
Context `{Collaborators}.

(** C1 (as amended): let the synthesis produce a record [q] (as seen when it
    runs without previous records), and let [p] be the previous record with
    the name and set identifier of [q], no other previous record having the
    same key.  Then the call succeeds and returns the pointer [p] itself.
    The name, type, targets and TTL behind [p] are now those that the
    synthesis computes for a record with that key.  The set identifier and
    the labels are unchanged, and so is every provider-specific property
    other than "weight" and "geo-code", which the load-balanced strategy
    sets; under the simple strategy the provider-specific properties are
    unchanged altogether.  A pointer of the result that is not a record of
    the given heap is a new record, and no previous record has its key. *)
Theorem identity_preserved gateway dnsRecord listener routing h endpoints0 h0 q p :
  GenerateEndpoints gateway (Some no_records) listener routing [] = (endpoints0, None, h0) →
  q ∈ endpoints0 →
  Forall (λ p', p' < length h)%nat (Endpoints dnsRecord) →
  p ∈ Endpoints dnsRecord →
  externaldns.DNSName (h !!! p) = externaldns.DNSName (h0 !!! q) →
  externaldns.SetIdentifier (h !!! p) = externaldns.SetIdentifier (h0 !!! q) →
  (∀ p', p' ∈ Endpoints dnsRecord → key_of h p' = key_of h p → p' = p) →
  let '(endpoints, err, h') :=
    GenerateEndpoints gateway (Some dnsRecord) listener routing h in
  err = None
  ∧ p ∈ endpoints
  ∧ (∃ q', q' ∈ endpoints0 ∧ key_of h0 q' = key_of h0 q
           ∧ synthesized_fields (h' !!! p) = synthesized_fields (h0 !!! q'))
  ∧ externaldns.SetIdentifier (h' !!! p) = externaldns.SetIdentifier (h !!! p)
  ∧ externaldns.Labels (h' !!! p) = externaldns.Labels (h !!! p)
  ∧ (∀ k, k ≠ "weight" → k ≠ "geo-code" →
       externaldns.getProperty k (externaldns.ProviderSpecific (h' !!! p))
       = externaldns.getProperty k (externaldns.ProviderSpecific (h !!! p)))
  ∧ (Strategy routing = SimpleRoutingStrategy →
       externaldns.ProviderSpecific (h' !!! p) = externaldns.ProviderSpecific (h !!! p))
  ∧ (∀ q', q' ∈ endpoints → (length h ≤ q')%nat →
       ∀ p', p' ∈ Endpoints dnsRecord → key_of h p' ≠ key_of h' q').
Proof.
  intros Hrun0 Hq0 Hall Hp Hpn Hps Hunique.
  destruct (run_without_records _ _ _ _ _ Hrun0)
    as (hostname & Hhost & Hvalid & Hstrategy & -> & Hperm0).
  rewrite (GenerateEndpoints_requests _ _ _ _ hostname) by done. cbv zeta.
  set (cur := index_from h ∅ (Endpoints dnsRecord)).
  set (rqs := requestsOf gateway routing hostname) in *.
  assert (∀ i rq, rqs !! i = Some rq → (rq_fresh <$> rqs) !!! i = rq_fresh rq) as Hfresh0.
  { intros i rq Hi. apply list_lookup_total_correct. by rewrite list_lookup_fmap, Hi. }
  assert (∀ i rq, rqs !! i = Some rq → key_of (rq_fresh <$> rqs) i = rq_key rq) as Hkey0.
  { intros i rq Hi. unfold key_of, rq_key. rewrite (Hfresh0 i rq Hi).
    by destruct (rq_fresh_identity rq) as [-> ->]. }
  assert (key_of (rq_fresh <$> rqs) q = key_of h p) as Hkeyq.
  { unfold key_of. by rewrite Hpn, Hps. }
  assert (index_wf cur h) as Hwf by (by apply index_from_wf).
  assert (p < length h)%nat as Hplt by (by eapply Forall_forall in Hall).
  assert (∃ rq, rq ∈ rqs ∧ cur !! rq_key rq = Some p) as (rq & Hrq & Hhit).
  { rewrite Hperm0 in Hq0. apply elem_of_seq in Hq0 as [_ Hq0]. simpl in Hq0.
    destruct (lookup_lt_is_Some_2 rqs q Hq0) as [rq Hrq].
    exists rq. split; [by eapply list_elem_of_lookup_2|].
    rewrite <- (Hkey0 q rq Hrq), Hkeyq. by apply index_from_unique. }
  rewrite emit_all_closed by done.
  destruct (sortEndpoints_spec (locs cur rqs (length h))
              (apply_hits cur rqs h ++ (rq_fresh <$> misses cur rqs)))
    as (_ & Hperm & _).
  simpl. set (h' := apply_hits cur rqs h ++ (rq_fresh <$> misses cur rqs)) in *.
  assert (h' !!! p = apply_hits cur rqs h !!! p) as Hp'.
  { unfold h'. rewrite lookup_total_app_l; [done|]. by rewrite apply_hits_length. }
  destruct (apply_hits_same_but cur rqs h p) as (Hsid & Hlabels & Hprops & Hnone).
  destruct (property_keys_requestsOf gateway routing hostname) as [Hsimple Hlb].
  split; [done|]. split; [|split; [|split; [|split; [|split; [|split]]]]].
  - rewrite Hperm. by eapply locs_hit.
  - destruct (apply_hits_last cur rqs h p Hplt) as (rq' & Hin' & Hhit' & Hfields).
    { apply Exists_exists. eauto. }
    apply list_elem_of_lookup_1 in Hin' as [i Hi].
    exists i. split; [|split].
    + rewrite Hperm0. apply elem_of_seq. apply lookup_lt_Some in Hi. lia.
    + rewrite (Hkey0 i rq' Hi), Hkeyq.
      by apply index_from_Some in Hhit' as [[_ ?]|?%lookup_empty_Some].
    + by rewrite Hp', (Hfresh0 i rq' Hi).
  - by rewrite Hp'.
  - by rewrite Hp'.
  - intros k Hweight Hgeo. rewrite Hp'. apply Hprops. intros Hk.
    unfold rqs, requestsOf in Hk. case_decide.
    + rewrite Hsimple in Hk. by apply elem_of_nil in Hk.
    + by destruct (Hlb _ Hk).
  - intros Hstr. rewrite Hp'. apply Hnone.
    unfold rqs, requestsOf. by rewrite decide_True.
  - intros q' Hq' Hnew p' Hp'in Hkey. rewrite Hperm in Hq'.
    apply locs_cases in Hq' as [(rq' & _ & Hrq')|Hrange].
    { apply Hwf in Hrq'. lia. }
    assert (is_Some (misses cur rqs !! (q' - length h)%nat)) as [rq' Hrq'].
    { apply lookup_lt_is_Some_2. lia. }
    assert (h' !!! q' = rq_fresh rq') as Hq''.
    { unfold h'. rewrite lookup_total_app_r by (rewrite apply_hits_length; lia).
      rewrite apply_hits_length. apply list_lookup_total_correct.
      by rewrite list_lookup_fmap, Hrq'. }
    assert (cur !! rq_key rq' = None) as Hmiss.
    { apply list_elem_of_lookup_2 in Hrq'. unfold misses in Hrq'.
      by apply list_elem_of_filter in Hrq' as [? _]. }
    assert (key_of h' q' = rq_key rq') as Hkq.
    { unfold key_of, rq_key. rewrite Hq''. by destruct (rq_fresh_identity rq') as [-> ->]. }
    rewrite Hkq in Hkey.
    destruct (index_from_is_Some h ∅ (Endpoints dnsRecord) (rq_key rq')) as [? Hsome].
    { right. eauto. }
    fold cur in Hsome. congruence.
Qed.

End Preservation.

(** A weighted record of the load-balanced strategy that was published
    before, with a health check attached. *)
Lemma identity_preserved_witness :
  let gateway := sample_gateway (geo_label "ES") [sample_edge] in
  let routing := sample_loadbalanced [] in
  let h := [previous_record "es.klb.www.example.com" "edge.example.net"] in
  let dnsRecord := mkDNSRecord [0%nat] in
  let run := GenerateEndpoints (H := demo) gateway (Some dnsRecord) sample_listener routing h in
  (0%nat ∈ Endpoints dnsRecord
   ∧ externaldns.DNSName (h !!! 0%nat) = "es.klb.www.example.com"
   ∧ externaldns.SetIdentifier (h !!! 0%nat) = "edge.example.net")
  ∧ run.1.2 = None
  ∧ 0%nat ∈ run.1.1
  ∧ externaldns.SetIdentifier (run.2 !!! 0%nat) = "edge.example.net"
  ∧ externaldns.Labels (run.2 !!! 0%nat) = ∅
  ∧ externaldns.getProperty "aws/health-check-id"
      (externaldns.ProviderSpecific (run.2 !!! 0%nat)) = Some "hc-1".
Proof.
  intros gateway routing h dnsRecord run.
  assert (0%nat ∈ Endpoints dnsRecord) as Hin by (by apply list_elem_of_here).
  split; [by repeat split|].
  pose proof (identity_preserved (H := demo) gateway dnsRecord sample_listener routing h
                [0; 1; 2]%nat (rq_fresh <$> requestsOf (H := demo) gateway routing sample_host)
                0%nat 0%nat) as Hthm.
  fold run in Hthm. destruct run as [[endpoints err] h'].
  destruct Hthm as (Herr & Hp & _ & Hsid & Hlabels & Hprops & _).
  - by vm_compute.
  - by apply list_elem_of_here.
  - by repeat constructor.
  - exact Hin.
  - reflexivity.
  - reflexivity.
  - by intros p' ->%list_elem_of_singleton _.
  - split; [exact Herr|]. split; [exact Hp|]. split; [exact Hsid|].
    split; [exact Hlabels|]. by rewrite Hprops.
Defined.

(** The same record after the call: the weight has been added to its
    provider-specific properties, which are therefore not as they were. *)
Lemma identity_preserved_sets_weight :
  let gateway := sample_gateway (geo_label "ES") [sample_edge] in
  let h := [previous_record "es.klb.www.example.com" "edge.example.net"] in
  let '(endpoints, err, h') :=
    GenerateEndpoints (H := demo) gateway (Some (mkDNSRecord [0%nat])) sample_listener
      (sample_loadbalanced []) h in
  err = None
  ∧ 0%nat ∈ endpoints
  ∧ externaldns.ProviderSpecific (h !!! 0%nat) = [health_check]
  ∧ externaldns.ProviderSpecific (h' !!! 0%nat)
    = [health_check; externaldns.mkProperty "weight" "120"]
  ∧ externaldns.ProviderSpecific (h' !!! 0%nat) ≠ externaldns.ProviderSpecific (h !!! 0%nat).
Proof.
  vm_compute. split; [done|]. split; [apply list_elem_of_here|]. by repeat split.
Qed.
